(** * GFM matting dataset pipeline ([core/data.py]): a shallow embedding

    The Python module builds one training sample per element access:
    compositing, trimap / dilation / erosion generation, and a random
    crop / flip / resize.  This file embeds those functions and states
    their properties.

    Conventions of the embedding.
    - A NumPy array of rank 2 is a list of rows; of rank 3 a list of rows
      of channel vectors.  Element types are erased: an 8-bit value is
      the integer it holds, a float is the rational it denotes.  Float
      arithmetic is therefore exact here; every statement below that
      speaks about a float result only uses operations that are exact
      on floats too (multiplying by 0 or 1, adding 0), or says so.
    - Raising is a result: [Res A] is [Ok a] or [Raise e].
    - Python's [random] and NumPy's [np.random] are two global
      generators; each is a tape of raw draws with a read position.
    - OpenCV and scikit-image are outside the repository.  What the
      code relies on (shapes, the morphology of binary masks, error on
      empty input) is written out; interpolation and blur arithmetic is
      a parameter. *)

From Stdlib Require Import ZArith QArith Qround Lia String.
From stdpp Require Import base option list.
Local Open Scope Z_scope.

(** ** Results and exceptions *)

Inductive exn := IndexError | ValueError | AttributeError | FileNotFoundError | cv2_error.

Inductive Res (A : Type) := Ok (a : A) | Raise (e : exn).
Arguments Ok {A} a.
Arguments Raise {A} e.

#[global] Instance Res_ret : MRet Res := fun A a => Ok a.
#[global] Instance Res_bind : MBind Res := fun A B f m =>
  match m with Ok a => f a | Raise e => Raise e end.
#[global] Instance Res_fmap : FMap Res := fun A B f m =>
  match m with Ok a => Ok (f a) | Raise e => Raise e end.

(** ** Arrays *)

(** [H x W] arrays of [A]; a rank-3 array is an [Img (list A)]. *)
Abbreviation Img A := (list (list A)) (only parsing).

(** An array with no element ([size == 0]); OpenCV refuses those. *)
Definition img_empty {A} (img : Img A) : bool :=
  match img with
  | [] => true
  | [] :: _ => true
  | _ => false
  end.

(** [img[y, x]] for in-range non-negative indices. *)
Definition pixel {A} (img : Img A) (y x : Z) : option A :=
  if (y <? 0) || (x <? 0) then None
  else row ← img !! Z.to_nat y; row !! Z.to_nat x.

(** Build an array of the shape of [src], the value at [(y, x)] given
    by [f y x v]. *)
Definition imap2 {A B} (f : Z -> Z -> A -> B) (src : Img A) : Img B :=
  imap (fun y row => imap (fun x v => f (Z.of_nat y) (Z.of_nat x) v) row) src.

(** Elementwise map. *)
Definition img_map {A B} (f : A -> B) (img : Img A) : Img B :=
  (fun row : list A => f <$> row) <$> img.

Definition zrange (n : Z) : list Z := Z.of_nat <$> seq 0 (Z.to_nat n).

(** ** OpenCV morphology on single-channel float32 masks *)

(** [FLT_MAX], the largest float32; it is an integer. *)
Definition FLT_MAX : Z := 2 ^ 128 - 2 ^ 104.

Record Kernel := { cells : Img bool; anchor_y : Z; anchor_x : Z }.

(** Nearest integer to [sqrt n]: [sqrt n] is never half-way between
    two integers, so no tie rule is needed. *)
Definition round_sqrt (n : Z) : Z :=
  let s := Z.sqrt n in if n - s * s >? s then s + 1 else s.

(** One row of [cv::getStructuringElement(MORPH_ELLIPSE, (k, k))]:
    with [r = c = k / 2] and [dy = i - r], columns [j1 <= j < j2] are set,
    where [dx = round (c * sqrt ((r*r - dy*dy) / (r*r)))],
    [j1 = max (c - dx) 0] and [j2 = min (c + dx + 1) k]. *)
Definition ellipse_row (k r i : Z) : list bool :=
  let dy := i - r in
  let '(j1, j2) :=
    if Z.abs dy <=? r
    then let dx := round_sqrt (r * r - dy * dy) in
         (Z.max (r - dx) 0, Z.min (r + dx + 1) k)
    else (0, 0) in
  (fun j => (j1 <=? j) && (j <? j2)) <$> zrange k.

(** [cv2.getStructuringElement(cv2.MORPH_ELLIPSE, (k, k))] with the
    default anchor, the centre [(k / 2, k / 2)].  A size below 1 fails
    OpenCV's assertion on the anchor; size 1 is the 1x1 rectangle. *)
Definition getStructuringElement_ELLIPSE (k : Z) : Res Kernel :=
  if k <=? 0 then Raise cv2_error
  else Ok {| cells := if k =? 1 then [[true]]
                      else ellipse_row k (k / 2) <$> zrange k;
             anchor_y := k / 2; anchor_x := k / 2 |}.

(** Offsets [(dy, dx)], relative to the anchor, of the set cells. *)
Definition kernel_offsets (K : Kernel) : list (Z * Z) :=
  mjoin (imap (fun i row =>
    omap (fun jb : nat * bool =>
            if jb.2 then Some (Z.of_nat i - anchor_y K, Z.of_nat jb.1 - anchor_x K)
            else None)
         (imap pair row)) (cells K)).

(** Source value under the constant border [b]. *)
Definition border_pixel (b : Z) (src : Img Z) (y x : Z) : Z :=
  default b (pixel src y x).

(** [cv2.dilate(src, kernel, iterations=1)]: the maximum of the source
    over the set cells of the kernel placed with its anchor on the
    pixel.  The default border is constant [-FLT_MAX] for float32. *)
Definition cv2_dilate (src : Img Z) (K : Kernel) : Res (Img Z) :=
  if img_empty src then Raise cv2_error
  else Ok (imap2 (fun y x _ =>
             foldr Z.max (- FLT_MAX)
               ((fun o : Z * Z => border_pixel (- FLT_MAX) src (y + o.1) (x + o.2))
                  <$> kernel_offsets K)) src).

(** [cv2.erode(src, kernel, iterations=1)]: the minimum, the border
    being [FLT_MAX]. *)
Definition cv2_erode (src : Img Z) (K : Kernel) : Res (Img Z) :=
  if img_empty src then Raise cv2_error
  else Ok (imap2 (fun y x _ =>
             foldr Z.min FLT_MAX
               ((fun o : Z * Z => border_pixel FLT_MAX src (y + o.1) (x + o.2))
                  <$> kernel_offsets K)) src).

(** ** Trimap, dilation and erosion targets *)

(** [np.not_equal(alpha, 0).astype(np.float32)] *)
Definition fg_and_unknown_of (alpha : Img Q) : Img Z :=
  img_map (fun a : Q => if Qeq_bool a 0 then 0 else 1) alpha.

(** [np.equal(alpha, 255).astype(np.float32)] *)
Definition fg_of (alpha : Img Q) : Img Z :=
  img_map (fun a : Q => if Qeq_bool a 255 then 1 else 0) alpha.

(** [.astype(np.uint8)] of an integer-valued float: the low 8 bits. *)
Definition astype_uint8 (img : Img Z) : Img Z := img_map (fun v => v mod 256) img.

Definition gen_trimap_with_dilate (alpha : Img Q) (kernel_size : Z) : Res (Img Z) :=
  kernel ← getStructuringElement_ELLIPSE kernel_size;
  let fg_and_unknown := fg_and_unknown_of alpha in
  let fg := fg_of alpha in
  dilate ← cv2_dilate fg_and_unknown kernel;
  erode ← cv2_erode fg kernel;
  let trimap := zip_with (zip_with (fun e d => e * 255 + (d - e) * 128)) erode dilate in
  mret (astype_uint8 trimap).

Definition gen_dilate (alpha : Img Q) (kernel_size : Z) : Res (Img Z) :=
  kernel ← getStructuringElement_ELLIPSE kernel_size;
  let fg_and_unknown := fg_and_unknown_of alpha in
  dilate ← cv2_dilate fg_and_unknown kernel;
  mret (astype_uint8 (img_map (fun d => d * 255) dilate)).

Definition gen_erosion (alpha : Img Q) (kernel_size : Z) : Res (Img Z) :=
  kernel ← getStructuringElement_ELLIPSE kernel_size;
  let fg := fg_of alpha in
  erode ← cv2_erode fg kernel;
  mret (astype_uint8 (img_map (fun e => e * 255) erode)).


(** ** Rank-2 and rank-3 arrays *)

Inductive ndarray :=
| Gray (a : Img Q)            (** shape [(H, W)] *)
| Multi (a : Img (list Q)).   (** shape [(H, W, C)] *)

Definition cols {A} (img : Img A) : nat :=
  match img with [] => 0%nat | r :: _ => length r end.

Definition chans {A} (img : Img (list A)) : nat :=
  match img with (p :: _) :: _ => length p | _ => 0%nat end.

(** [h, w, c = a.shape]: unpacking fails unless the rank is 3. *)
Definition shape3 (a : ndarray) : Res (nat * nat * nat) :=
  match a with
  | Gray _ => Raise ValueError
  | Multi a => Ok (length a, cols a, chans a)
  end.

(** The array with entries [f y x] for [y < h], [x < w]. *)
Definition tabulate2 {A} (h w : nat) (f : nat -> nat -> A) : Img A :=
  (fun y => f y <$> seq 0 w) <$> seq 0 h.

Definition tabulate3 {A} (h w c : nat) (f : nat -> nat -> nat -> A) : Img (list A) :=
  tabulate2 h w (fun y x => f y x <$> seq 0 c).

(** A rank-2 array seen with one channel per pixel, and a rank-3 array
    as it is. *)
Definition as3 (a : ndarray) : Img (list Q) :=
  match a with Gray a => img_map (fun v => [v]) a | Multi a => a end.

(** An array of size 0. *)
Definition nd_empty (a : ndarray) : bool :=
  match a with
  | Gray a => img_empty a
  | Multi a => img_empty a || (chans a =? 0)%nat
  end.

(** ** Python indexing and slicing *)

(** [l[i]] on a list or tuple: negative indices count from the end. *)
Definition py_index {A} (l : list A) (i : Z) : Res A :=
  let n := Z.of_nat (length l) in
  let j := if i <? 0 then i + n else i in
  if (j <? 0) || (n <=? j) then Raise IndexError
  else match l !! Z.to_nat j with Some x => Ok x | None => Raise IndexError end.

(** A slice bound brought into [0 .. n] (step 1). *)
Definition slice_bound (n i : Z) : Z :=
  if i <? 0 then Z.max (i + n) 0 else Z.min i n.

(** [l[start:stop]] *)
Definition py_slice {A} (start stop : Z) (l : list A) : list A :=
  let n := Z.of_nat (length l) in
  let s := slice_bound n start in
  let e := slice_bound n stop in
  take (Z.to_nat (e - s)) (drop (Z.to_nat s) l).

(** [a[y0:y1, x0:x1]] *)
Definition slice2 {A} (y0 y1 x0 x1 : Z) (a : Img A) : Img A :=
  py_slice x0 x1 <$> py_slice y0 y1 a.

Definition nd_slice2 (y0 y1 x0 x1 : Z) (a : ndarray) : ndarray :=
  match a with
  | Gray a => Gray (slice2 y0 y1 x0 x1 a)
  | Multi a => Multi (slice2 y0 y1 x0 x1 a)
  end.

(** ** NumPy elementwise arithmetic with broadcasting *)

Definition mapM_Res {A B} (f : A -> Res B) : list A -> Res (list B) :=
  fix go l := match l with
              | [] => Ok []
              | x :: l => y ← f x; k ← go l; Ok (y :: k)
              end.

(** One axis: equal lengths pair up, a length-1 axis is stretched,
    anything else is a shape mismatch. *)
Definition bzip {A B C} (f : A -> B -> Res C) (la : list A) (lb : list B)
  : Res (list C) :=
  if (length la =? length lb)%nat then mapM_Res (fun ab => f ab.1 ab.2) (zip la lb)
  else match la, lb with
       | [a], _ => mapM_Res (f a) lb
       | _, [b] => mapM_Res (fun a => f a b) la
       | _, _ => Raise ValueError
       end.

Definition bzip2 (f : Q -> Q -> Q) : Img Q -> Img Q -> Res (Img Q) :=
  bzip (bzip (fun x y => Ok (f x y))).

Definition bzip3 (f : Q -> Q -> Q) : Img (list Q) -> Img (list Q) -> Res (Img (list Q)) :=
  bzip (bzip (bzip (fun x y => Ok (f x y)))).

(** Shapes are aligned from the right: [(H, W)] acts as [(1, H, W)]. *)
Definition promote3 (a : ndarray) : Img (list Q) :=
  match a with Gray a => [a] | Multi a => a end.

(** [a op b] on arrays. *)
Definition np_binop (f : Q -> Q -> Q) (a b : ndarray) : Res ndarray :=
  match a, b with
  | Gray a, Gray b => Gray <$> bzip2 f a b
  | _, _ => Multi <$> bzip3 f (promote3 a) (promote3 b)
  end.

(** [f(a)] elementwise. *)
Definition np_map (f : Q -> Q) (a : ndarray) : ndarray :=
  match a with
  | Gray a => Gray (img_map f a)
  | Multi a => Multi (img_map (fmap f) a)
  end.

(** Conversion of a float to an integer, C style: towards zero. *)
Definition Qtrunc (q : Q) : Z := Z.quot (Qnum q) (Zpos (Qden q)).

(** [np.uint8(v)] / [.astype(np.uint8)] on a float: the value is
    truncated towards zero and the low 8 bits are kept, as NumPy does
    on x86-64 for values in the range of a machine integer. *)
Definition np_uint8 (q : Q) : Q := inject_Z (Qtrunc q mod 256).

(** ** The world a call runs in *)

Inductive Transform := MattingTransform.

Record Dataset := {
  samples : list (list string);
  transform : Transform;
  logging : list string;
  BG_CHOICE : string;
  backbone : string;
  FG_CF : bool;
  RSSN_DENOISE : bool
}.

(** Python's [random] generator and NumPy's global generator: each a
    tape of raw 64-bit draws and a position; NumPy's also delivers
    standard normal variates.  [files] is what [np.array(Image.open(p))]
    yields; [self] is the dataset object. *)
Record World := {
  py_tape : nat -> N;
  py_pos : nat;
  np_tape : nat -> N;
  np_normals : nat -> Q;
  np_pos : nat;
  files : string -> option ndarray;
  self : Dataset
}.

Definition M (A : Type) : Type := World -> Res A * World.

#[global] Instance M_ret : MRet M := fun A a w => (Ok a, w).
#[global] Instance M_bind : MBind M := fun A B f m w =>
  match m w with
  | (Ok a, w') => f a w'
  | (Raise e, w') => (Raise e, w')
  end.

#[global] Instance M_fmap : FMap M := fun A B f m w =>
  match m w with
  | (Ok a, w') => (Ok (f a), w')
  | (Raise e, w') => (Raise e, w')
  end.

Definition liftR {A} (r : Res A) : M A := fun w => (r, w).

(** [self.attr] *)
Definition self_attr {A} (f : Dataset -> A) : M A := fun w => (Ok (f (self w)), w).

(** [np.array(Image.open(path))] *)
Definition image_open (path : string) : M ndarray := fun w =>
  (match files w path with Some a => Ok a | None => Raise FileNotFoundError end, w).

Definition py_draw : M N := fun w =>
  (Ok (py_tape w (py_pos w)),
   {| py_tape := py_tape w; py_pos := S (py_pos w); np_tape := np_tape w;
      np_normals := np_normals w; np_pos := np_pos w; files := files w; self := self w |}).

Definition np_advance (n : nat) (w : World) : World :=
  {| py_tape := py_tape w; py_pos := py_pos w; np_tape := np_tape w;
     np_normals := np_normals w; np_pos := (np_pos w + n)%nat; files := files w;
     self := self w |}.

Definition np_draw : M N := fun w => (Ok (np_tape w (np_pos w)), np_advance 1 w).

(** [random.random()]: a multiple of [2^-53] in [[0, 1)]. *)
Definition random_random : M Q :=
  r ← py_draw; mret (inject_Z (Z.of_N r mod 2 ^ 53) / inject_Z (2 ^ 53))%Q.

(** [random.random() < 0.5] *)
Definition random_lt_half : M bool :=
  u ← random_random; mret (negb (Qle_bool (1 # 2) u)).

(** [random.randint(a, b)], both ends included. *)
Definition random_randint (a b : Z) : M Z :=
  if b <? a then liftR (Raise ValueError)
  else r ← py_draw; mret (a + Z.of_N r mod (b - a + 1)).

(** [random.choice(l)] *)
Definition random_choice {A} (l : list A) : M A :=
  match l with
  | [] => liftR (Raise IndexError)
  | _ => r ← py_draw; liftR (py_index l (Z.of_N r mod Z.of_nat (length l)))
  end.

(** [np.random.randint(n, size=1)[0]] *)
Definition np_random_randint (n : Z) : M Z :=
  if n <=? 0 then liftR (Raise ValueError)
  else r ← np_draw; mret (Z.of_N r mod n).

(** [np.random.normal(mean, sigma, (row, col, ch))]: one variate per
    element, in row-major order. *)
Definition np_random_normal (mean sigma : Q) (row col ch : nat) : M ndarray := fun w =>
  (Ok (Multi (tabulate3 row col ch (fun y x k =>
         mean + sigma * np_normals w (np_pos w + ((y * col + x) * ch + k))%nat)%Q)),
   np_advance (row * col * ch) w).

(** ** Pure helpers of the module *)

(** [img[:, :, 0]] *)
Definition channel0 (a : Img (list Q)) : Res (Img Q) :=
  mapM_Res (mapM_Res (fun p : list Q => py_index p 0)) a.

(** Keeps the first channel when [img.ndim > 2]. *)
Definition trim_img (img : ndarray) : Res (Img Q) :=
  match img with
  | Multi a => channel0 a
  | Gray a => Ok a
  end.

(** A channel-first tensor, [C x H x W]. *)
Abbreviation Tensor := (list (list (list Q))) (only parsing).

Section Externals.

(** [skimage.transform.resize(img, shape)]: the value of the output
    at an index; the interpolation is not modelled. *)
Variable sk_resize : ndarray -> list nat -> list nat -> Q.

(** [cv2.blur(img, (k, k))] and
    [cv2.resize(img, (s, s), interpolation=cv2.INTER_LINEAR)]: the
    value of the output at [(y, x, channel)]. *)
Variable blur_value : Z -> Img (list Q) -> nat -> nat -> nat -> Q.
Variable resize_value : Z -> Img (list Q) -> nat -> nat -> nat -> Q.

(** [config.CROP_SIZE] and [config.RESIZE_SIZE]. *)
Variable CROP_SIZE : list Z.
Variable RESIZE_SIZE : Z.

(** [resize(img, ori.shape) * 255.0]: an array of the shape of [ori].
    scikit-image refuses an output rank below the input's. *)
Definition resize_img (ori img : ndarray) : Res ndarray :=
  match ori, img with
  | Gray o, Gray _ =>
      Ok (Gray (tabulate2 (length o) (cols o) (fun y x =>
            sk_resize img [length o; cols o] [y; x] * 255)%Q))
  | Gray _, Multi _ => Raise ValueError
  | Multi o, _ =>
      Ok (Multi (tabulate3 (length o) (cols o) (chans o) (fun y x k =>
            sk_resize img [length o; cols o; chans o] [y; x; k] * 255)%Q))
  end.

(** [(mask / 255.0)[:, :, np.newaxis]] *)
Definition mask_3_of (mask : Img Q) : ndarray :=
  Multi (img_map (fun m => [m / 255]%Q) mask).

Definition process_fgbg (ori : ndarray) (mask : Img Q) (is_fg : bool)
    (fgbg_path : option string) : M ndarray :=
  match fgbg_path with
  | Some p => image_open p
  | None =>
      let mask_3 := mask_3_of mask in
      liftR (if is_fg then np_binop Qmult ori mask_3
             else np_binop Qmult ori (np_map (fun m => 1 - m)%Q mask_3))
  end.

(** [alpha = np.zeros((h, w, 1)); alpha[:, :, 0] = mask / 255.]: the
    right-hand side is broadcast to [(h, w)]. *)
Definition stretch {A} (n : nat) (l : list A) : Res (list A) :=
  if (length l =? n)%nat then Ok l
  else match l with
       | [a] => Ok (replicate n a)
       | _ => Raise ValueError
       end.

Definition alpha_of_mask (h w : nat) (mask : Img Q) : Res ndarray :=
  rows ← stretch h (img_map (fun m => m / 255)%Q mask);
  rows ← mapM_Res (stretch w) rows;
  Ok (Multi (img_map (fun a => [a]) rows)).

(** [(alpha * fg + (1 - alpha) * bg).astype(np.uint8)] *)
Definition blend (alpha fg bg : ndarray) : Res ndarray :=
  a_fg ← np_binop Qmult alpha fg;
  a_bg ← np_binop Qmult (np_map (fun a => 1 - a)%Q alpha) bg;
  composite ← np_binop Qplus a_fg a_bg;
  Ok (np_map np_uint8 composite).

(** What OpenCV hands back for an image of [c] channels: rank 2 when
    [c = 1], rank 3 otherwise. *)
Definition cv2_out (a : Img (list Q)) : ndarray :=
  if (chans a =? 1)%nat then Gray (img_map (fun p => default 0%Q (head p)) a)
  else Multi a.

Definition cv2_blur (src : ndarray) (k : Z) : Res ndarray :=
  if nd_empty src || (k <=? 0) then Raise cv2_error
  else let a := as3 src in
       Ok (cv2_out (tabulate3 (length a) (cols a) (chans a) (blur_value k a))).

(** [cv2.flip(src, 1)]: mirror around the vertical axis. *)
Definition cv2_flip_1 (src : ndarray) : Res ndarray :=
  if nd_empty src then Raise cv2_error
  else Ok (cv2_out (reverse <$> as3 src)).

Definition cv2_resize (src : ndarray) (s : Z) : Res ndarray :=
  if nd_empty src || (s <=? 0) then Raise cv2_error
  else let a := as3 src in
       Ok (cv2_out (tabulate3 (Z.to_nat s) (Z.to_nat s) (chans a) (resize_value s a))).

(** ** Compositing *)

Definition add_guassian_noise (img fg bg : ndarray)
  : M (ndarray * ndarray * ndarray) :=
  '(row, col, ch) ← liftR (shape3 img);
  let mean := 0%Q in
  let sigma := 10%Q in
  gauss ← np_random_normal mean sigma row col ch;
  noisy_img ← liftR (np_map np_uint8 <$> np_binop Qplus img gauss);
  noisy_fg ← liftR (np_map np_uint8 <$> np_binop Qplus fg gauss);
  noisy_bg ← liftR (np_map np_uint8 <$> np_binop Qplus bg gauss);
  mret (noisy_img, noisy_fg, noisy_bg).

(** [generate_composite_rssn] up to and including the cast of the
    composite (source lines 63 to 76). *)
Definition rssn_before_noise (fg bg : ndarray) (mask : Img Q)
    (fg_denoise bg_denoise : option ndarray) : M (ndarray * ndarray * ndarray) :=
  '(h, w, c) ← liftR (shape3 fg);
  alpha ← liftR (alpha_of_mask h w mask);
  bg ← liftR (resize_img fg bg);
  (* use denoise fg/bg randomly *)
  '(fg, bg) ←
    match fg_denoise with
    | Some fg_d =>
        b ← random_lt_half;
        if b : bool then
          match bg_denoise with
          | Some bg_d => bg' ← liftR (resize_img fg_d bg_d); mret (fg_d, bg')
          | None => liftR (Raise AttributeError)
          end
        else mret (fg, bg)
    | None => mret (fg, bg)
    end;
  (* reduce sharpness discrepancy *)
  b ← random_lt_half;
  bg ← (if b : bool then
          rand_kernel ← random_choice [20; 30; 40; 50; 60];
          liftR (cv2_blur bg rand_kernel)
        else mret bg);
  composite ← liftR (blend alpha fg bg);
  mret (composite, fg, bg).

Definition generate_composite_rssn (fg bg : ndarray) (mask : Img Q)
    (fg_denoise bg_denoise : option ndarray) : M (ndarray * ndarray * ndarray) :=
  '(composite, fg, bg) ← rssn_before_noise fg bg mask fg_denoise bg_denoise;
  (* reduce noise discrepancy *)
  b ← random_lt_half;
  if b : bool then add_guassian_noise composite fg bg
  else mret (composite, fg, bg).

Definition generate_composite_coco (fg bg : ndarray) (mask : Img Q)
  : M (ndarray * ndarray * ndarray) :=
  '(h, w, c) ← liftR (shape3 fg);
  alpha ← liftR (alpha_of_mask h w mask);
  bg ← liftR (resize_img fg bg);
  composite ← liftR (blend alpha fg bg);
  mret (composite, fg, bg).

(** ** Data transformer: [MattingTransform.__call__] *)

(** Row and column indices of [np.where(cond)], in row-major order;
    for a rank-3 array one entry per channel that satisfies [cond]. *)
Definition np_where (cond : Q -> bool) (a : ndarray) : list (Z * Z) :=
  mjoin (imap (fun y row =>
    mjoin (imap (fun x (p : list Q) =>
             (fun _ => (Z.of_nat y, Z.of_nat x)) <$> List.filter cond p) row))
    (as3 a)).

Definition is_128 (v : Q) : bool := Qeq_bool v 128.
Definition above_m100 (v : Q) : bool := negb (Qle_bool v (-100)).

(** [CROP_SIZE[rand_ind] if CROP_SIZE[rand_ind] < min(h, w) else 320]
    for [rand_ind = random.randint(0, len(CROP_SIZE) - 1)]. *)
Definition choose_crop_size (h w : Z) : M Z :=
  rand_ind ← random_randint 0 (Z.of_nat (length CROP_SIZE) - 1);
  chosen ← liftR (py_index CROP_SIZE rand_ind);
  mret (if chosen <? Z.min h w then chosen else 320).

(** Generate a crop centred in the transition area randomly: returns
    [(cropx, cropy)]. *)
Definition crop_origin (h w crop_size : Z) (trimap : ndarray) : M (Z * Z) :=
  let trimap_crop := nd_slice2 0 (h - crop_size) 0 (w - crop_size) trimap in
  biased ← random_lt_half;
  let target := if biased : bool then np_where is_128 trimap_crop
                else np_where above_m100 trimap_crop in
  let target := if (length target =? 0)%nat then np_where above_m100 trimap_crop
                else target in
  rand_ind ← np_random_randint (Z.of_nat (length target));
  yx ← liftR (py_index target rand_ind);
  mret (yx.2, yx.1).

(** Crop, flip, resize of one buffer. *)
Definition transform_item (cropy cropx crop_size : Z) (flip_flag : bool)
    (resize_size : Z) (item : ndarray) : Res ndarray :=
  let item := nd_slice2 cropy (cropy + crop_size) cropx (cropx + crop_size) item in
  item ← (if flip_flag then cv2_flip_1 item else Ok item);
  cv2_resize item resize_size.

Definition MattingTransform__call__ (argv : list ndarray) : M (list ndarray) :=
  ori ← liftR (py_index argv 0);
  '(h, w, c) ← liftR (shape3 ori);
  crop_size ← choose_crop_size (Z.of_nat h) (Z.of_nat w);
  let resize_size := RESIZE_SIZE in
  trimap ← liftR (py_index argv 1);
  '(cropx, cropy) ← crop_origin (Z.of_nat h) (Z.of_nat w) crop_size trimap;
  flip_flag ← random_lt_half;
  liftR (mapM_Res (transform_item cropy cropx crop_size flip_flag resize_size) argv).

(** ** Data loader: [MattingDataset] *)

(** [permute(2, 0, 1)] of an [H x W x C] array. *)
Definition permute_2_0_1 (a : Img (list Q)) : Tensor :=
  (fun k => img_map (fun p : list Q => default 0%Q (p !! k)) a) <$> seq 0 (chans a).

(** [item[np.newaxis, :, :]] when [item.ndim < 3], the permutation
    otherwise. *)
Definition to_tensor (item : ndarray) : Tensor :=
  match item with
  | Gray a => [a]
  | Multi a => permute_2_0_1 a
  end.

Record Sample := {
  s_ori : Tensor; s_mask : Tensor; s_fg : Tensor; s_bg : Tensor;
  s_trimap : Tensor; s_dilation : Tensor; s_erosion : Tensor
}.

Definition of_uint8 (a : Img Z) : ndarray := Gray (img_map inject_Z a).

(** [self.transform(...)] *)
Definition call_transform (t : Transform) (argv : list ndarray) : M (list ndarray) :=
  match t with MattingTransform => MattingTransform__call__ argv end.

Definition when_path (cond : bool) (sample : list string) (i : Z)
  : M (option string) :=
  if cond then Some <$> liftR (py_index sample i) else mret None.

Definition MattingDataset__getitem__ (index : Z) : M Sample :=
  (* Prepare training sample paths *)
  smp ← self_attr samples;
  sample ← liftR (py_index smp index);
  ori_path ← liftR (py_index sample 0);
  mask_path ← liftR (py_index sample 1);
  fg_cf ← self_attr FG_CF;
  bg_choice ← self_attr BG_CHOICE;
  rssn_denoise ← self_attr RSSN_DENOISE;
  fg_path ← when_path fg_cf sample 2;
  bg_path ← when_path (fg_cf || negb (String.eqb bg_choice "original")) sample 3;
  fg_path_denoise ← when_path (String.eqb bg_choice "hd" && rssn_denoise) sample 4;
  bg_path_denoise ← when_path (String.eqb bg_choice "hd" && rssn_denoise) sample 5;
  (* Prepare ori/mask/fg/bg (mandatary) *)
  ori ← image_open ori_path;
  mask_raw ← image_open mask_path;
  mask ← liftR (trim_img mask_raw);
  fg ← process_fgbg ori mask true fg_path;
  bg ← process_fgbg ori mask false bg_path;
  (* Prepare composite for hd/coco *)
  '(ori, fg, bg) ←
    (if String.eqb bg_choice "hd" then
       fg_denoise ← (if rssn_denoise : bool
                     then Some <$> process_fgbg ori mask true fg_path_denoise
                     else mret None);
       bg_denoise ← (if rssn_denoise : bool
                     then Some <$> process_fgbg ori mask true bg_path_denoise
                     else mret None);
       generate_composite_rssn fg bg mask fg_denoise bg_denoise
     else if String.eqb bg_choice "coco" then
       generate_composite_coco fg bg mask
     else mret (ori, fg, bg));
  (* Generate trimap/dilation/erosion online *)
  kernel_size ← random_randint 25 35;
  trimap ← liftR (gen_trimap_with_dilate mask kernel_size);
  dilation ← liftR (gen_dilate mask kernel_size);
  erosion ← liftR (gen_erosion mask kernel_size);
  (* Data transformation to generate samples: crop/flip/resize *)
  t ← self_attr transform;
  argv ← call_transform t [ori; Gray mask; fg; bg; of_uint8 trimap;
                           of_uint8 dilation; of_uint8 erosion];
  let argv_transform := to_tensor <$> argv in
  match argv_transform with
  | [ori; mask; fg; bg; trimap; dilation; erosion] =>
      mret {| s_ori := ori; s_mask := mask; s_fg := fg; s_bg := bg;
              s_trimap := trimap; s_dilation := dilation; s_erosion := erosion |}
  | _ => liftR (Raise ValueError)
  end.

Definition MattingDataset__len__ : M Z :=
  smp ← self_attr samples; mret (Z.of_nat (length smp)).

End Externals.

(** ** Vocabulary of the statements *)

(** A mask with values 0 and 1 only. *)
Definition binary (img : Img Z) : Prop :=
  forall y x v, pixel img y x = Some v -> v = 0 \/ v = 1.

(** The eroded and dilated masks at a pixel of the buffer. *)
Definition eroded (alpha : Img Q) (K : Kernel) (y x : Z) : Z :=
  foldr Z.min FLT_MAX
    ((fun o : Z * Z => border_pixel FLT_MAX (fg_of alpha) (y + o.1) (x + o.2))
       <$> kernel_offsets K).

Definition dilated (alpha : Img Q) (K : Kernel) (y x : Z) : Z :=
  foldr Z.max (- FLT_MAX)
    ((fun o : Z * Z => border_pixel (- FLT_MAX) (fg_and_unknown_of alpha) (y + o.1) (x + o.2))
       <$> kernel_offsets K).

(** A call that leaves the dataset object and the files as they were. *)
Definition keeps_self {A} (m : M A) : Prop :=
  forall w, self (m w).2 = self w /\ files (m w).2 = files w.

(** A call that neither reads nor advances any generator, nor looks at
    the world at all: its result is fixed by its arguments. *)
Definition pure_call {A} (m : M A) : Prop :=
  exists r, forall w, m w = (r, w).

(** Spatial extent of a buffer: [h] rows of [w] pixels each. *)
Definition sized {A} (h w : Z) (a : Img A) : Prop :=
  Z.of_nat (length a) = h /\ Forall (fun r => Z.of_nat (length r) = w) a.

Definition spatial_size (o : ndarray) (h w : Z) : Prop :=
  match o with Gray a => sized h w a | Multi a => sized h w a end.

(** The seven tensors of a sample, in the order they are returned. *)
Definition tensors_of (s : Sample) : list Tensor :=
  [s_ori s; s_mask s; s_fg s; s_bg s; s_trimap s; s_dilation s; s_erosion s].



(** A tensor of shape [(c, h, w)]. *)
Definition tensor_shape (t : Tensor) (c : nat) (h w : Z) : Prop :=
  length t = c /\ Forall (sized h w) t.

Definition channels_of (item : ndarray) : nat :=
  match item with Gray _ => 1%nat | Multi a => chans a end.

(** [a[y, x, k]] *)
Definition entry (a : Img (list Q)) (y x : Z) (k : nat) : option Q :=
  p ← pixel a y x; p !! k.

(** A rank-3 array of shape [(h, w, c)]. *)
Definition rect3 (a : Img (list Q)) (h w c : nat) : Prop :=
  length a = h /\
  Forall (fun row => length row = w /\ Forall (fun p : list Q => length p = c) row) a.

(** A rank-2 array of shape [(h, w)]. *)
Definition rect2 (m : Img Q) (h w : nat) : Prop :=
  length m = h /\ Forall (fun r => length r = w) m.




(** A buffer with [hh] rows of [ww] pixels, each pixel with at least
    one channel. *)
Definition full (hh ww : nat) (a : Img (list Q)) : Prop :=
  length a = hh /\
  Forall (fun row => length row = ww /\ Forall (fun p : list Q => p <> []) row) a.

Definition item_full (hh ww : nat) (a : ndarray) : Prop := full hh ww (as3 a).

(** The world after one draw from Python's generator. *)
Definition py_next (w : World) : World := (py_draw w).2.

(** ** Sample data *)

Definition alpha_demo : Img Q :=
  [[0; 0; 0; 0; 0]; [0; 255; 255; 255; 0]; [0; 255; 255; 255; 128];
   [0; 255; 255; 255; 0]; [0; 0; 0; 0; 0]]%Q.

Definition trimap_demo : Img Z :=
  [[0; 128; 128; 128; 0]; [128; 128; 128; 128; 128]; [128; 128; 255; 128; 128];
   [128; 128; 128; 128; 128]; [0; 128; 128; 128; 0]].

(** Stand-ins for the arithmetic of the external image routines, used
    to run the pipeline on sample data: the nearest source pixel for a
    resize, the source pixel itself for a blur. *)
Definition value_at (a : Img (list Q)) (y x : Z) (k : nat) : Q :=
  default 0%Q (p ← pixel a y x; p !! k).

Definition nearest_value (s : Z) (a : Img (list Q)) (y x k : nat) : Q :=
  value_at a (Z.of_nat y * Z.of_nat (length a) / s)
             (Z.of_nat x * Z.of_nat (cols a) / s) k.

Definition no_blur (ksize : Z) (a : Img (list Q)) (y x k : nat) : Q :=
  value_at a (Z.of_nat y) (Z.of_nat x) k.

Definition sk_nearest (img : ndarray) (shape idx : list nat) : Q :=
  let a := as3 img in
  match shape, idx with
  | h :: w :: _, y :: x :: rest =>
      value_at a (Z.of_nat (y * length a) / Z.of_nat h)
                 (Z.of_nat (x * cols a) / Z.of_nat w) (default 0%nat (head rest))
  | _, _ => 0%Q
  end.

Definition dataset_demo : Dataset :=
  {| samples := [["ori.png"; "mask.png"]]%string; transform := MattingTransform;
     logging := []; BG_CHOICE := "original"; backbone := "r34";
     FG_CF := false; RSSN_DENOISE := false |}.

Definition ori_demo : ndarray :=
  Multi (tabulate3 5 5 3 (fun y x k => inject_Z (Z.of_nat (40 * y + 8 * x + k)))).

Definition files_demo (p : string) : option ndarray :=
  if String.eqb p "ori.png" then Some ori_demo
  else if String.eqb p "mask.png" then Some (Gray alpha_demo)
  else None.

(** A world whose generators deliver the draws of [py] and [np]. *)
Definition world_of (py np : list N) (normals : list Q) : World :=
  {| py_tape := fun i => default 0%N (py !! i); py_pos := 0;
     np_tape := fun i => default 0%N (np !! i);
     np_normals := fun i => default 0%Q (normals !! i); np_pos := 0;
     files := files_demo; self := dataset_demo |}.

Definition world_demo : World := world_of [] [] [].

(** The crop size the sentence "falls back to 320 exactly when the
    chosen element is larger than the image" describes. *)
Definition crop_size_if_larger (chosen h w : Z) : Z :=
  if Z.min h w <? chosen then 320 else chosen.

(** Seven flat buffers of a given size, as [__getitem__] passes them. *)
Definition flat_argv (h w : nat) : list ndarray :=
  [Multi (replicate h (replicate w [0; 0; 0]%Q)); Gray (replicate h (replicate w 255%Q));
   Multi (replicate h (replicate w [0; 0; 0]%Q)); Multi (replicate h (replicate w [0; 0; 0]%Q));
   Gray (replicate h (replicate w 255%Q)); Gray (replicate h (replicate w 255%Q));
   Gray (replicate h (replicate w 255%Q))].

(** What the transformer returns on flat 4 x 4 buffers. *)
Definition call_demo_out : list ndarray :=
  Eval vm_compute in
    match (MattingTransform__call__ nearest_value [2] 3 (flat_argv 4 4) world_demo).1 with
    | Ok out => out
    | Raise _ => []
    end.


(** A 1 x 2 foreground with three channels, a float background in
    [[0, 1]] and a mask that is opaque on the left, transparent on the
    right. *)
Definition fg_demo : Img (list Q) := [[[10; 20; 30]; [40; 50; 60]]]%Q.
Definition bg_demo : ndarray := Multi [[[100 # 255; 1 # 2; 1]]]%Q.
Definition mask_demo : Img Q := [[255; 0]]%Q.

Definition coco_demo_out : Res (ndarray * ndarray * ndarray) :=
  Eval vm_compute in
    (generate_composite_coco sk_nearest (Multi fg_demo) bg_demo mask_demo world_demo).1.

(** The same layers for the rssn variant: 250, 3 and 100 under an
    opaque mask. *)
Definition fg_noise : ndarray := Multi [[[250; 3; 100]]]%Q.
Definition bg_noise : ndarray := Multi [[[0; 0; 0]]]%Q.

(** A world whose first coin says "no blur", whose second says "add
    noise", and whose normal variates are 1, -1/2 and 3. *)
Definition world_noise : World := world_of [2 ^ 52; 0]%N [] [1; - (1 # 2); 3]%Q.

(** A world whose first two coins both say "no". *)
Definition world_quiet : World := world_of [2 ^ 52; 2 ^ 52]%N [] [].

(** How many paths [__getitem__] reads from a sample entry, by the
    options of the dataset. *)
Definition paths_needed (d : Dataset) : Z :=
  if String.eqb (BG_CHOICE d) "hd" && RSSN_DENOISE d then 6
  else if FG_CF d || negb (String.eqb (BG_CHOICE d) "original") then 4
  else 2.

(** The sample world with closed-form foregrounds switched on, its
    entry still holding two paths only. *)
Definition world_cf : World :=
  {| py_tape := fun _ => 0%N; py_pos := 0; np_tape := fun _ => 0%N;
     np_normals := fun _ => 0%Q; np_pos := 0; files := files_demo;
     self := {| samples := [["ori.png"; "mask.png"]]%string;
                transform := MattingTransform; logging := [];
                BG_CHOICE := "original"; backbone := "r34";
                FG_CF := true; RSSN_DENOISE := false |} |}.

(** The sample world with its files gone. *)
Definition world_no_files : World :=
  {| py_tape := fun _ => 0%N; py_pos := 0; np_tape := fun _ => 0%N;
     np_normals := fun _ => 0%Q; np_pos := 0; files := fun _ => None;
     self := dataset_demo |}.






(** ** Pixel access through the array combinators *)

Lemma pixel_Some {A} (img : Img A) y x v :
  pixel img y x = Some v <->
  0 <= y /\ 0 <= x /\
  exists row, img !! Z.to_nat y = Some row /\ row !! Z.to_nat x = Some v.
Proof.
  unfold pixel. split.
  - destruct (y <? 0) eqn:Hy; [discriminate|].
    destruct (x <? 0) eqn:Hx; [discriminate|]. simpl.
    destruct (img !! Z.to_nat y) as [row|] eqn:Hr; [|discriminate]. simpl.
    intros Hv. repeat split; try lia. eauto.
  - intros (Hy & Hx & row & Hr & Hv).
    destruct (Z.ltb_spec y 0); [lia|]. destruct (Z.ltb_spec x 0); [lia|].
    simpl. rewrite Hr. exact Hv.
Qed.

Lemma pixel_imap2 {A B} (f : Z -> Z -> A -> B) (src : Img A) y x :
  pixel (imap2 f src) y x = f y x <$> pixel src y x.
Proof.
  unfold pixel, imap2.
  destruct (Z.ltb_spec y 0); [reflexivity|].
  destruct (Z.ltb_spec x 0); [reflexivity|]. simpl.
  rewrite list_lookup_imap.
  destruct (src !! Z.to_nat y) as [row|]; [|reflexivity]. simpl.
  rewrite list_lookup_imap, !Z2Nat.id by lia. reflexivity.
Qed.

Lemma pixel_img_map {A B} (f : A -> B) (img : Img A) y x :
  pixel (img_map f img) y x = f <$> pixel img y x.
Proof.
  unfold pixel, img_map.
  destruct ((y <? 0) || (x <? 0)); [reflexivity|].
  rewrite list_lookup_fmap.
  destruct (img !! Z.to_nat y) as [row|]; [|reflexivity]. simpl.
  apply list_lookup_fmap.
Qed.

Lemma pixel_zip_with {A B C} (f : A -> B -> C) (a : Img A) (b : Img B) y x :
  pixel (zip_with (zip_with f) a b) y x =
  u ← pixel a y x; v ← pixel b y x; Some (f u v).
Proof.
  unfold pixel.
  destruct ((y <? 0) || (x <? 0)); [reflexivity|].
  rewrite lookup_zip_with.
  destruct (a !! Z.to_nat y) as [ra|]; [|reflexivity]. simpl.
  destruct (b !! Z.to_nat y) as [rb|]; simpl.
  - rewrite lookup_zip_with. reflexivity.
  - destruct (ra !! Z.to_nat x); reflexivity.
Qed.

(** ** The structuring element *)

Lemma elem_of_kernel_offsets K (i j : nat) row :
  cells K !! i = Some row -> row !! j = Some true ->
  (Z.of_nat i - anchor_y K, Z.of_nat j - anchor_x K) ∈ kernel_offsets K.
Proof.
  intros Hi Hj. unfold kernel_offsets.
  apply list_elem_of_join. eexists. split.
  2:{ apply list_elem_of_lookup. exists i. rewrite list_lookup_imap, Hi. reflexivity. }
  apply list_elem_of_omap. exists (j, true). split; [|reflexivity].
  apply list_elem_of_lookup. exists j. rewrite list_lookup_imap, Hj. reflexivity.
Qed.

Lemma lookup_zrange n (i : nat) :
  (i < Z.to_nat n)%nat -> zrange n !! i = Some (Z.of_nat i).
Proof.
  intros Hi. unfold zrange. rewrite list_lookup_fmap, lookup_seq_lt by lia.
  reflexivity.
Qed.

Lemma round_sqrt_square r : 0 <= r -> round_sqrt (r * r) = r.
Proof.
  intros Hr. unfold round_sqrt. rewrite Z.sqrt_square by lia.
  destruct (Z.gtb_spec (r * r - r * r) r); [lia|reflexivity].
Qed.

(** The anchor of the ellipse is one of its set cells: the middle row
    of the ellipse is full. *)
Lemma ellipse_anchor_set k K :
  getStructuringElement_ELLIPSE k = Ok K -> (0, 0) ∈ kernel_offsets K.
Proof.
  unfold getStructuringElement_ELLIPSE.
  destruct (Z.leb_spec k 0) as [|Hk]; [discriminate|].
  intros [= <-].
  destruct (Z.eqb_spec k 1) as [->|Hk1].
  - apply (elem_of_kernel_offsets {| cells := [[true]]; anchor_y := 0; anchor_x := 0 |}
             0%nat 0%nat [true]); reflexivity.
  - assert (Hr : 1 <= k / 2) by (apply Z.div_le_lower_bound; lia).
    assert (Hr' : k / 2 < k) by (apply Z.div_lt; lia).
    set (r := k / 2) in *.
    replace (0, 0) with (Z.of_nat (Z.to_nat r) - r, Z.of_nat (Z.to_nat r) - r)
      by (f_equal; lia).
    apply (elem_of_kernel_offsets
             {| cells := ellipse_row k r <$> zrange k; anchor_y := r; anchor_x := r |}
             _ _ (ellipse_row k r r)); simpl.
    + rewrite list_lookup_fmap, lookup_zrange by lia.
      simpl. rewrite Z2Nat.id by lia. reflexivity.
    + unfold ellipse_row. rewrite Z.sub_diag. change (Z.abs 0) with 0.
      destruct (Z.leb_spec 0 r); [|lia].
      rewrite Z.sub_0_r, round_sqrt_square by lia. cbv beta iota zeta.
      rewrite list_lookup_fmap, lookup_zrange by lia. simpl.
      rewrite Z2Nat.id by lia. f_equal.
      apply andb_true_intro. split; [apply Z.leb_le|apply Z.ltb_lt]; lia.
Qed.

Example kernel3 : kernel_offsets <$> getStructuringElement_ELLIPSE 3 =
  Ok [(-1, 0); (0, -1); (0, 0); (0, 1); (1, 0)].
Proof. reflexivity. Qed.

Example kernel5_cells : cells <$> getStructuringElement_ELLIPSE 5 =
  Ok [[false; false; true; false; false];
      [true; true; true; true; true];
      [true; true; true; true; true];
      [true; true; true; true; true];
      [false; false; true; false; false]].
Proof. reflexivity. Qed.



(** ** Minimum and maximum over a neighbourhood *)

Lemma foldr_min_le b (l : list Z) v : v ∈ l -> foldr Z.min b l <= v.
Proof.
  induction l as [|u l IH]; intros Hv.
  - inversion Hv.
  - simpl. apply elem_of_cons in Hv as [->|Hv]; [lia|]. specialize (IH Hv). lia.
Qed.

Lemma foldr_min_elem b (l : list Z) : foldr Z.min b l = b \/ foldr Z.min b l ∈ l.
Proof.
  induction l as [|u l IH]; simpl; [now left|].
  destruct (Z.min_spec u (foldr Z.min b l)) as [[_ ->]|[_ ->]].
  - right. left.
  - destruct IH as [IH|IH]; [now left|right; now right].
Qed.

Lemma foldr_max_ge b (l : list Z) v : v ∈ l -> v <= foldr Z.max b l.
Proof.
  induction l as [|u l IH]; intros Hv.
  - inversion Hv.
  - simpl. apply elem_of_cons in Hv as [->|Hv]; [lia|]. specialize (IH Hv). lia.
Qed.

Lemma foldr_max_elem b (l : list Z) : foldr Z.max b l = b \/ foldr Z.max b l ∈ l.
Proof.
  induction l as [|u l IH]; simpl; [now left|].
  destruct (Z.max_spec u (foldr Z.max b l)) as [[_ ->]|[_ ->]].
  - destruct IH as [IH|IH]; [now left|right; now right].
  - right. left.
Qed.

(** ** Binary masks *)

Lemma FLT_MAX_big : 1 < FLT_MAX.
Proof. reflexivity. Qed.

Lemma border_pixel_cases b src y x :
  border_pixel b src y x = b \/ pixel src y x = Some (border_pixel b src y x).
Proof. unfold border_pixel. destruct (pixel src y x); simpl; auto. Qed.

Section Neighbourhood.
Variables (src : Img Z) (offs : list (Z * Z)) (y x s : Z).
Hypothesis Hbin : binary src.
Hypothesis Hanchor : (0, 0) ∈ offs.
Hypothesis Hs : pixel src y x = Some s.

Let here b : s ∈ (fun o : Z * Z => border_pixel b src (y + o.1) (x + o.2)) <$> offs.
Proof.
  apply list_elem_of_fmap. exists (0, 0). split; [|exact Hanchor].
  simpl. unfold border_pixel. rewrite !Z.add_0_r, Hs. reflexivity.
Qed.

Lemma erode_value :
  let e := foldr Z.min FLT_MAX
             ((fun o : Z * Z => border_pixel FLT_MAX src (y + o.1) (x + o.2)) <$> offs) in
  (e = 0 \/ e = 1) /\ e <= s.
Proof.
  intros e. pose proof FLT_MAX_big as Hbig.
  assert (Hle : e <= s) by (apply foldr_min_le, here).
  assert (Hs01 : s = 0 \/ s = 1) by (eapply Hbin, Hs).
  split; [|exact Hle].
  destruct (foldr_min_elem FLT_MAX
    ((fun o : Z * Z => border_pixel FLT_MAX src (y + o.1) (x + o.2)) <$> offs))
    as [He|He]; fold e in He; [lia|].
  apply list_elem_of_fmap in He as (o & He & _).
  destruct (border_pixel_cases FLT_MAX src (y + o.1) (x + o.2)) as [Hb|Hb].
  - lia.
  - rewrite <- He in Hb. eapply Hbin, Hb.
Qed.

Lemma dilate_value :
  let d := foldr Z.max (- FLT_MAX)
             ((fun o : Z * Z => border_pixel (- FLT_MAX) src (y + o.1) (x + o.2)) <$> offs) in
  (d = 0 \/ d = 1) /\ s <= d.
Proof.
  intros d. pose proof FLT_MAX_big as Hbig.
  assert (Hle : s <= d) by (apply foldr_max_ge, here).
  assert (Hs01 : s = 0 \/ s = 1) by (eapply Hbin, Hs).
  split; [|exact Hle].
  destruct (foldr_max_elem (- FLT_MAX)
    ((fun o : Z * Z => border_pixel (- FLT_MAX) src (y + o.1) (x + o.2)) <$> offs))
    as [He|He]; fold d in He; [lia|].
  apply list_elem_of_fmap in He as (o & He & _).
  destruct (border_pixel_cases (- FLT_MAX) src (y + o.1) (x + o.2)) as [Hb|Hb].
  - lia.
  - rewrite <- He in Hb. eapply Hbin, Hb.
Qed.
End Neighbourhood.

Lemma binary_fg_of alpha : binary (fg_of alpha).
Proof.
  intros y x v. unfold fg_of. rewrite pixel_img_map.
  destruct (pixel alpha y x) as [a|]; [|discriminate]. simpl.
  intros [= <-]. destruct (Qeq_bool a 255); auto.
Qed.

Lemma binary_fg_and_unknown_of alpha : binary (fg_and_unknown_of alpha).
Proof.
  intros y x v. unfold fg_and_unknown_of. rewrite pixel_img_map.
  destruct (pixel alpha y x) as [a|]; [|discriminate]. simpl.
  intros [= <-]. destruct (Qeq_bool a 0); auto.
Qed.

(** A pixel that is exactly 255 is not 0. *)
Lemma fg_le_fg_and_unknown (a : Q) :
  (if Qeq_bool a 255 then 1 else 0) <= (if Qeq_bool a 0 then 0 else 1).
Proof.
  destruct (Qeq_bool a 255) eqn:H255; destruct (Qeq_bool a 0) eqn:H0; try lia.
  apply Qeq_bool_iff in H255, H0. rewrite H255 in H0. discriminate.
Qed.

Lemma img_empty_img_map {A B} (f : A -> B) (img : Img A) :
  img_empty (img_map f img) = img_empty img.
Proof. destruct img as [|[|? ?] ?]; reflexivity. Qed.

Lemma eroded_dilated alpha k K y x a :
  getStructuringElement_ELLIPSE k = Ok K ->
  pixel alpha y x = Some a ->
  let e := eroded alpha K y x in
  let d := dilated alpha K y x in
  (e = 0 \/ e = 1) /\ (d = 0 \/ d = 1) /\ e <= d.
Proof.
  intros HK Ha e d. apply ellipse_anchor_set in HK.
  destruct (erode_value (fg_of alpha) (kernel_offsets K) y x
              (if Qeq_bool a 255 then 1 else 0)) as [He Hes].
  { apply binary_fg_of. } { exact HK. }
  { unfold fg_of. rewrite pixel_img_map, Ha. reflexivity. }
  destruct (dilate_value (fg_and_unknown_of alpha) (kernel_offsets K) y x
              (if Qeq_bool a 0 then 0 else 1)) as [Hd Hds].
  { apply binary_fg_and_unknown_of. } { exact HK. }
  { unfold fg_and_unknown_of. rewrite pixel_img_map, Ha. reflexivity. }
  pose proof (fg_le_fg_and_unknown a).
  fold (eroded alpha K y x) in He, Hes. fold (dilated alpha K y x) in Hd, Hds.
  fold e in He, Hes. fold d in Hd, Hds.
  repeat split; [exact He|exact Hd|lia].
Qed.

Lemma cv2_erode_pixel alpha K ero y x :
  cv2_erode (fg_of alpha) K = Ok ero ->
  pixel ero y x = (fun _ => eroded alpha K y x) <$> pixel alpha y x.
Proof.
  unfold cv2_erode. destruct (img_empty (fg_of alpha)); [discriminate|].
  intros [= <-]. rewrite pixel_imap2. unfold fg_of at 2. rewrite pixel_img_map.
  destruct (pixel alpha y x); reflexivity.
Qed.

Lemma cv2_dilate_pixel alpha K dil y x :
  cv2_dilate (fg_and_unknown_of alpha) K = Ok dil ->
  pixel dil y x = (fun _ => dilated alpha K y x) <$> pixel alpha y x.
Proof.
  unfold cv2_dilate. destruct (img_empty (fg_and_unknown_of alpha)); [discriminate|].
  intros [= <-]. rewrite pixel_imap2. unfold fg_and_unknown_of at 2. rewrite pixel_img_map.
  destruct (pixel alpha y x); reflexivity.
Qed.

(** What the three generators return, pixel by pixel. *)
Lemma gen_trimap_with_dilate_pixel alpha k out :
  gen_trimap_with_dilate alpha k = Ok out ->
  exists K, getStructuringElement_ELLIPSE k = Ok K /\
  forall y x, pixel out y x =
    (fun _ => (eroded alpha K y x * 255
               + (dilated alpha K y x - eroded alpha K y x) * 128) mod 256)
      <$> pixel alpha y x.
Proof.
  unfold gen_trimap_with_dilate.
  destruct (getStructuringElement_ELLIPSE k) as [K|] eqn:HK; [|discriminate]. simpl.
  destruct (cv2_dilate (fg_and_unknown_of alpha) K) as [dil|] eqn:Hd; [|discriminate]. simpl.
  destruct (cv2_erode (fg_of alpha) K) as [ero|] eqn:He; [|discriminate]. simpl.
  intros [= <-]. exists K. split; [reflexivity|]. intros y x.
  unfold astype_uint8. rewrite pixel_img_map, pixel_zip_with.
  rewrite (cv2_erode_pixel _ _ _ _ _ He), (cv2_dilate_pixel _ _ _ _ _ Hd).
  destruct (pixel alpha y x); reflexivity.
Qed.

Lemma gen_dilate_pixel alpha k out K :
  getStructuringElement_ELLIPSE k = Ok K ->
  gen_dilate alpha k = Ok out ->
  forall y x, pixel out y x =
    (fun _ => (dilated alpha K y x * 255) mod 256) <$> pixel alpha y x.
Proof.
  unfold gen_dilate. intros ->. simpl.
  destruct (cv2_dilate (fg_and_unknown_of alpha) K) as [dil|] eqn:Hd; [|discriminate]. simpl.
  intros [= <-] y x. unfold astype_uint8. rewrite !pixel_img_map.
  rewrite (cv2_dilate_pixel _ _ _ _ _ Hd).
  destruct (pixel alpha y x); reflexivity.
Qed.

Lemma gen_erosion_pixel alpha k out K :
  getStructuringElement_ELLIPSE k = Ok K ->
  gen_erosion alpha k = Ok out ->
  forall y x, pixel out y x =
    (fun _ => (eroded alpha K y x * 255) mod 256) <$> pixel alpha y x.
Proof.
  unfold gen_erosion. intros ->. simpl.
  destruct (cv2_erode (fg_of alpha) K) as [ero|] eqn:He; [|discriminate]. simpl.
  intros [= <-] y x. unfold astype_uint8. rewrite !pixel_img_map.
  rewrite (cv2_erode_pixel _ _ _ _ _ He).
  destruct (pixel alpha y x); reflexivity.
Qed.

(** The generators return on every non-empty buffer and kernel size of
    at least 1, and fail together otherwise. *)
Lemma generators_return alpha k :
  1 <= k -> img_empty alpha = false ->
  exists t d e, gen_trimap_with_dilate alpha k = Ok t /\
                gen_dilate alpha k = Ok d /\ gen_erosion alpha k = Ok e.
Proof.
  intros Hk Hne.
  unfold gen_trimap_with_dilate, gen_dilate, gen_erosion, getStructuringElement_ELLIPSE.
  destruct (Z.leb_spec k 0); [lia|]. simpl.
  unfold cv2_dilate, cv2_erode, fg_of, fg_and_unknown_of.
  rewrite !img_empty_img_map, Hne. simpl. eauto 10.
Qed.

(** C1. Whatever [gen_trimap_with_dilate] returns holds only the values
    0, 128 and 255, and each pixel valued 255 is a pixel at which the
    erosion of the exactly-255 region is 1. *)
Theorem gen_trimap_with_dilate_values (alpha : Img Q) (kernel_size : Z) (out : Img Z) :
  gen_trimap_with_dilate alpha kernel_size = Ok out ->
  exists K erode,
    getStructuringElement_ELLIPSE kernel_size = Ok K /\
    cv2_erode (fg_of alpha) K = Ok erode /\
    forall y x v, pixel out y x = Some v ->
      (v = 0 \/ v = 128 \/ v = 255) /\ (v = 255 -> pixel erode y x = Some 1).
Proof.
  intros Hout. destruct (gen_trimap_with_dilate_pixel _ _ _ Hout) as (K & HK & Hpix).
  assert (exists ero, cv2_erode (fg_of alpha) K = Ok ero) as [ero He].
  { revert Hout. unfold gen_trimap_with_dilate. rewrite HK. simpl.
    destruct (cv2_dilate _ K); [|discriminate]. simpl.
    destruct (cv2_erode _ K); [eauto|discriminate]. }
  exists K, ero. split; [exact HK|]. split; [exact He|].
  intros y x v Hv. rewrite Hpix in Hv.
  destruct (pixel alpha y x) as [a|] eqn:Ha; [|discriminate].
  simpl in Hv. injection Hv as <-.
  rewrite (cv2_erode_pixel _ _ _ _ _ He), Ha. simpl.
  destruct (eroded_dilated alpha _ K y x a HK Ha) as (He01 & Hd01 & Hle).
  destruct He01 as [E | E], Hd01 as [D | D]; rewrite E, D in *; try lia;
    (split; [vm_compute; auto | vm_compute; intros; congruence]).
Qed.

Lemma gen_trimap_with_dilate_values_witness :
  gen_trimap_with_dilate alpha_demo 3 = Ok trimap_demo /\
  exists K erode,
    getStructuringElement_ELLIPSE 3 = Ok K /\
    cv2_erode (fg_of alpha_demo) K = Ok erode /\
    forall y x v, pixel trimap_demo y x = Some v ->
      (v = 0 \/ v = 128 \/ v = 255) /\ (v = 255 -> pixel erode y x = Some 1).
Proof.
  split; [vm_compute; reflexivity|].
  apply (gen_trimap_with_dilate_values alpha_demo 3). vm_compute. reflexivity.
Defined.

(** C8. With the same arguments the three generators agree pixel by
    pixel: the trimap is 255 exactly where [gen_erosion] is 255, and
    non-zero exactly where [gen_dilate] is 255. *)
Theorem generators_consistent (alpha : Img Q) (kernel_size : Z) (t d e : Img Z) :
  gen_trimap_with_dilate alpha kernel_size = Ok t ->
  gen_dilate alpha kernel_size = Ok d ->
  gen_erosion alpha kernel_size = Ok e ->
  forall y x,
    (pixel t y x = Some 255 <-> pixel e y x = Some 255) /\
    ((exists v, pixel t y x = Some v /\ v <> 0) <-> pixel d y x = Some 255).
Proof.
  intros Ht Hd He y x.
  destruct (gen_trimap_with_dilate_pixel _ _ _ Ht) as (K & HK & Hpix).
  rewrite Hpix, (gen_dilate_pixel _ _ _ _ HK Hd), (gen_erosion_pixel _ _ _ _ HK He).
  destruct (pixel alpha y x) as [a|] eqn:Ha.
  - destruct (eroded_dilated alpha _ K y x a HK Ha) as (He01 & Hd01 & Hle).
    cbn [fmap option_fmap option_map].
    destruct He01 as [E | E], Hd01 as [D | D]; rewrite E, D in *; try lia;
      (split;
       [ split; vm_compute; congruence
       | split;
         [ intros (v & Hv & Hnz); vm_compute in Hv; vm_compute; congruence
         | intros Hv; vm_compute in Hv;
           first [ discriminate
                 | eexists; split; [vm_compute; reflexivity | discriminate] ] ] ]).
  - cbn. split; split; try discriminate. intros (v & Hv & _). discriminate.
Qed.

Lemma generators_consistent_witness :
  gen_trimap_with_dilate alpha_demo 3 = Ok trimap_demo /\
  gen_dilate alpha_demo 3
  = Ok [[0; 255; 255; 255; 0]; [255; 255; 255; 255; 255]; [255; 255; 255; 255; 255];
        [255; 255; 255; 255; 255]; [0; 255; 255; 255; 0]] /\
  gen_erosion alpha_demo 3
  = Ok [[0; 0; 0; 0; 0]; [0; 0; 0; 0; 0]; [0; 0; 255; 0; 0];
        [0; 0; 0; 0; 0]; [0; 0; 0; 0; 0]] /\
  forall y x,
    (pixel trimap_demo y x = Some 255 <->
     pixel [[0; 0; 0; 0; 0]; [0; 0; 0; 0; 0]; [0; 0; 255; 0; 0];
            [0; 0; 0; 0; 0]; [0; 0; 0; 0; 0]] y x = Some 255) /\
    ((exists v, pixel trimap_demo y x = Some v /\ v <> 0) <->
     pixel [[0; 255; 255; 255; 0]; [255; 255; 255; 255; 255]; [255; 255; 255; 255; 255];
            [255; 255; 255; 255; 255]; [0; 255; 255; 255; 0]] y x = Some 255).
Proof.
  split; [vm_compute; reflexivity|].
  split; [vm_compute; reflexivity|].
  split; [vm_compute; reflexivity|].
  apply (generators_consistent alpha_demo 3); vm_compute; reflexivity.
Defined.


(** ** Running a call: inversion of the monad *)

Lemma bind_run {A B} (m : M A) (f : A -> M B) w :
  (m ≫= f) w = match m w with
               | (Ok a, w') => f a w'
               | (Raise e, w') => (Raise e, w')
               end.
Proof. reflexivity. Qed.

Lemma bind_Ok_inv {A B} (m : M A) (f : A -> M B) w b :
  ((m ≫= f) w).1 = Ok b ->
  exists a, (m w).1 = Ok a /\ (f a (m w).2).1 = Ok b.
Proof.
  rewrite bind_run. destruct (m w) as [[a|e] w']; simpl; [eauto|discriminate].
Qed.


Lemma bind_Ok_run {A B} (m : M A) (f : A -> M B) w a :
  (m w).1 = Ok a -> (m ≫= f) w = f a (m w).2.
Proof. rewrite bind_run. destruct (m w) as [[a'|e] w']; simpl; congruence. Qed.

Lemma liftR_run {A} (r : Res A) w : liftR r w = (r, w).
Proof. reflexivity. Qed.

Lemma mapM_Res_Ok {A B} (f : A -> Res B) l k :
  mapM_Res f l = Ok k <-> Forall2 (fun x y => f x = Ok y) l k.
Proof.
  revert k. induction l as [|x l IH]; intros k; simpl.
  - split; [intros [= <-]; constructor | intros H; inversion H; reflexivity].
  - split.
    + destruct (f x) as [y|] eqn:Hx; simpl; [|discriminate].
      destruct (mapM_Res f l) as [k'|] eqn:Hl; simpl; [|discriminate].
      intros [= <-]. constructor; [exact Hx | now apply IH].
    + intros H. inversion H as [|? y ? k' Hx Hl]; subst.
      rewrite Hx. simpl. apply IH in Hl. rewrite Hl. reflexivity.
Qed.

(** ** Frame: what a call leaves untouched *)

Lemma keeps_ret {A} (a : A) : keeps_self (mret a).
Proof. intros w. split; reflexivity. Qed.

Lemma keeps_liftR {A} (r : Res A) : keeps_self (liftR r).
Proof. intros w. split; reflexivity. Qed.

Lemma keeps_self_attr {A} (f : Dataset -> A) : keeps_self (self_attr f).
Proof. intros w. split; reflexivity. Qed.

Lemma keeps_image_open p : keeps_self (image_open p).
Proof. intros w. split; reflexivity. Qed.

Lemma keeps_py_draw : keeps_self py_draw.
Proof. intros w. split; reflexivity. Qed.

Lemma keeps_np_draw : keeps_self np_draw.
Proof. intros w. split; reflexivity. Qed.

Lemma keeps_np_random_normal mean sigma row col ch :
  keeps_self (np_random_normal mean sigma row col ch).
Proof. intros w. split; reflexivity. Qed.

Lemma keeps_bind {A B} (m : M A) (f : A -> M B) :
  keeps_self m -> (forall a, keeps_self (f a)) -> keeps_self (m ≫= f).
Proof.
  intros Hm Hf w. rewrite bind_run. specialize (Hm w).
  destruct (m w) as [[a|e] w']; simpl in *; [|exact Hm].
  destruct (Hf a w') as [H1 H2]. destruct Hm as [H3 H4]. split; congruence.
Qed.

Lemma keeps_fmap {A B} (g : A -> B) (m : M A) :
  keeps_self m -> keeps_self (g <$> m).
Proof.
  intros Hm w. specialize (Hm w). unfold fmap, M_fmap.
  destruct (m w) as [[a|e] w']; exact Hm.
Qed.

(** Peels one layer of a call built from the primitives. *)
Ltac keeps_step :=
  first
    [ match goal with H : _ |- _ => apply H end
    | apply keeps_ret | apply keeps_liftR | apply keeps_self_attr
    | apply keeps_image_open | apply keeps_py_draw | apply keeps_np_draw
    | apply keeps_np_random_normal
    | apply keeps_fmap
    | apply keeps_bind; [|intros ?]
    | match goal with
      | |- keeps_self (match ?x with _ => _ end) => destruct x
      | |- keeps_self (let '(_, _) := ?x in _) => destruct x
      end ].

Ltac keeps := repeat keeps_step.

Lemma keeps_random_lt_half : keeps_self random_lt_half.
Proof. unfold random_lt_half, random_random. keeps. Qed.

Lemma keeps_random_randint a b : keeps_self (random_randint a b).
Proof. unfold random_randint. keeps. Qed.

Lemma keeps_random_choice {A} (l : list A) : keeps_self (random_choice l).
Proof. unfold random_choice. keeps. Qed.

Lemma keeps_np_random_randint n : keeps_self (np_random_randint n).
Proof. unfold np_random_randint. keeps. Qed.

Section Frame.
Variable sk_resize : ndarray -> list nat -> list nat -> Q.
Variables blur_value resize_value : Z -> Img (list Q) -> nat -> nat -> nat -> Q.
Variable CROP_SIZE : list Z.
Variable RESIZE_SIZE : Z.

Lemma keeps_process_fgbg ori mask is_fg path :
  keeps_self (process_fgbg ori mask is_fg path).
Proof. unfold process_fgbg. keeps. Qed.

Lemma keeps_add_guassian_noise img fg bg :
  keeps_self (add_guassian_noise img fg bg).
Proof. unfold add_guassian_noise. keeps. Qed.

Lemma keeps_rssn_before_noise fg bg mask fd bd :
  keeps_self (rssn_before_noise sk_resize blur_value fg bg mask fd bd).
Proof.
  unfold rssn_before_noise.
  pose proof keeps_random_lt_half. pose proof (@keeps_random_choice Z).
  keeps.
Qed.

Lemma keeps_generate_composite_rssn fg bg mask fd bd :
  keeps_self (generate_composite_rssn sk_resize blur_value fg bg mask fd bd).
Proof.
  unfold generate_composite_rssn.
  pose proof keeps_random_lt_half. pose proof keeps_add_guassian_noise.
  pose proof keeps_rssn_before_noise.
  keeps.
Qed.

Lemma keeps_generate_composite_coco fg bg mask :
  keeps_self (generate_composite_coco sk_resize fg bg mask).
Proof. unfold generate_composite_coco. keeps. Qed.

Lemma keeps_MattingTransform__call__ argv :
  keeps_self (MattingTransform__call__ resize_value CROP_SIZE RESIZE_SIZE argv).
Proof.
  unfold MattingTransform__call__, choose_crop_size, crop_origin.
  pose proof keeps_random_lt_half. pose proof keeps_random_randint.
  pose proof keeps_np_random_randint.
  keeps.
Qed.

Lemma keeps_MattingDataset__getitem__ index :
  keeps_self (MattingDataset__getitem__ sk_resize blur_value resize_value
                CROP_SIZE RESIZE_SIZE index).
Proof.
  unfold MattingDataset__getitem__, when_path, call_transform.
  pose proof keeps_random_randint. pose proof keeps_process_fgbg.
  pose proof keeps_generate_composite_rssn. pose proof keeps_generate_composite_coco.
  pose proof keeps_MattingTransform__call__.
  keeps.
Qed.

(** C10. An element access leaves the dataset object as it was: the
    sample list, hence the length reported afterwards, and every
    other field; this holds whether the access returns or raises. *)
Theorem getitem_preserves_dataset (index : Z) (w : World) :
  let w' := (MattingDataset__getitem__ sk_resize blur_value resize_value
               CROP_SIZE RESIZE_SIZE index w).2 in
  self w' = self w /\
  samples (self w') = samples (self w) /\
  (MattingDataset__len__ w').1 = (MattingDataset__len__ w).1.
Proof.
  intros w'. destruct (keeps_MattingDataset__getitem__ index w) as [Hs _].
  fold w' in Hs. split; [exact Hs|]. split; [now rewrite Hs|].
  unfold MattingDataset__len__, self_attr. rewrite !bind_run. simpl. now rewrite Hs.
Qed.
End Frame.


(** ** Calls that use no randomness *)

Lemma pure_ret {A} (a : A) : pure_call (mret a).
Proof. exists (Ok a). reflexivity. Qed.

Lemma pure_liftR {A} (r : Res A) : pure_call (liftR r).
Proof. exists r. reflexivity. Qed.

Lemma pure_bind {A B} (m : M A) (f : A -> M B) :
  pure_call m -> (forall a, pure_call (f a)) -> pure_call (m ≫= f).
Proof.
  intros [r Hr] Hf. destruct r as [a|e].
  - destruct (Hf a) as [r' Hr']. exists r'. intros w.
    rewrite bind_run, Hr. apply Hr'.
  - exists (Raise e). intros w. rewrite bind_run, Hr. reflexivity.
Qed.

Lemma pure_call_run {A} (m : M A) :
  pure_call m -> forall w1 w2, (m w1).1 = (m w2).1 /\ (m w1).2 = w1.
Proof. intros [r Hr] w1 w2. rewrite !Hr. split; reflexivity. Qed.

Ltac pure_step :=
  first
    [ apply pure_ret | apply pure_liftR
    | apply pure_bind; [|intros ?]
    | match goal with
      | |- pure_call (match ?x with _ => _ end) => destruct x
      end ].

Lemma pure_generate_composite_coco sk_resize fg bg mask :
  pure_call (generate_composite_coco sk_resize fg bg mask).
Proof. unfold generate_composite_coco. repeat pure_step. Qed.

(** C9. [generate_composite_coco] is deterministic: two calls on equal
    arguments return equal triples whatever the state of the random
    generators, and the call leaves that state (the whole world) as it
    found it. *)
Theorem generate_composite_coco_deterministic
    (sk_resize : ndarray -> list nat -> list nat -> Q)
    (fg bg : ndarray) (mask : Img Q) (w1 w2 : World) :
  (generate_composite_coco sk_resize fg bg mask w1).1
  = (generate_composite_coco sk_resize fg bg mask w2).1 /\
  (generate_composite_coco sk_resize fg bg mask w1).2 = w1.
Proof. apply pure_call_run, pure_generate_composite_coco. Qed.


(** ** The random primitives *)

Lemma random_lt_half_run w :
  exists b, random_lt_half w = (Ok b, py_next w).
Proof. unfold random_lt_half, random_random. rewrite !bind_run. simpl. eauto. Qed.

Lemma random_randint_run a b w :
  a <= b ->
  random_randint a b w = (Ok (a + Z.of_N (py_tape w (py_pos w)) mod (b - a + 1)), py_next w).
Proof.
  intros Hab. unfold random_randint. destruct (Z.ltb_spec b a); [lia|]. reflexivity.
Qed.

Lemma np_random_randint_run n w :
  0 < n ->
  np_random_randint n w = (Ok (Z.of_N (np_tape w (np_pos w)) mod n), np_advance 1 w).
Proof.
  intros Hn. unfold np_random_randint. destruct (Z.leb_spec n 0); [lia|]. reflexivity.
Qed.

Lemma np_random_randint_raises n w :
  n <= 0 -> np_random_randint n w = (Raise ValueError, w).
Proof.
  intros Hn. unfold np_random_randint. destruct (Z.leb_spec n 0); [|lia]. reflexivity.
Qed.

Lemma py_index_in_range {A} (l : list A) i :
  0 <= i < Z.of_nat (length l) ->
  exists x, py_index l i = Ok x /\ l !! Z.to_nat i = Some x.
Proof.
  intros Hi. unfold py_index.
  destruct (Z.ltb_spec i 0); [lia|].
  destruct (Z.ltb_spec i 0); [lia|].
  destruct (Z.leb_spec (Z.of_nat (length l)) i); [lia|]. simpl.
  destruct (lookup_lt_is_Some_2 l (Z.to_nat i)) as [x Hx]; [lia|].
  rewrite Hx. eauto.
Qed.

(** ** Choice of the crop size *)

Lemma choose_crop_size_cases (CROP_SIZE : list Z) (h w : Z) (wd : World) :
  CROP_SIZE <> [] ->
  exists chosen,
    chosen ∈ CROP_SIZE /\
    ((chosen < Z.min h w /\ (choose_crop_size CROP_SIZE h w wd).1 = Ok chosen) \/
     (Z.min h w <= chosen /\ (choose_crop_size CROP_SIZE h w wd).1 = Ok 320)).
Proof.
  intros Hne. unfold choose_crop_size.
  assert (Hlen : 0 < Z.of_nat (length CROP_SIZE)) by (destruct CROP_SIZE; [done|simpl; lia]).
  rewrite bind_run, random_randint_run by lia.
  set (i := 0 + _ mod _).
  assert (Hi : 0 <= i < Z.of_nat (length CROP_SIZE)).
  { subst i. replace (Z.of_nat (length CROP_SIZE) - 1 - 0 + 1)
      with (Z.of_nat (length CROP_SIZE)) by lia.
    pose proof (Z.mod_pos_bound (Z.of_N (py_tape wd (py_pos wd)))
                  (Z.of_nat (length CROP_SIZE)) Hlen). lia. }
  destruct (py_index_in_range CROP_SIZE i Hi) as (chosen & Hidx & Hlk).
  exists chosen. split; [eapply list_elem_of_lookup_2, Hlk|].
  rewrite bind_run, liftR_run, Hidx. simpl.
  destruct (Z.ltb_spec chosen (Z.min h w)); [left|right]; split; auto.
Qed.

(** C5. The crop size is an element of [CROP_SIZE] drawn at random if
    that element is strictly below [min h w]; it is 320 if the element
    is equal to or above [min h w]. *)
Theorem choose_crop_size_spec (CROP_SIZE : list Z) (h w : Z) (wd : World) :
  CROP_SIZE <> [] ->
  exists chosen,
    chosen ∈ CROP_SIZE /\
    ((chosen < Z.min h w /\ (choose_crop_size CROP_SIZE h w wd).1 = Ok chosen) \/
     (Z.min h w <= chosen /\ (choose_crop_size CROP_SIZE h w wd).1 = Ok 320)).
Proof. apply choose_crop_size_cases. Qed.

Lemma choose_crop_size_spec_witness :
  [640; 960; 1280] <> [] /\
  exists chosen,
    chosen ∈ [640; 960; 1280] /\
    ((chosen < Z.min 800 1000 /\
      (choose_crop_size [640; 960; 1280] 800 1000 world_demo).1 = Ok chosen) \/
     (Z.min 800 1000 <= chosen /\
      (choose_crop_size [640; 960; 1280] 800 1000 world_demo).1 = Ok 320)).
Proof.
  split; [discriminate|].
  apply (choose_crop_size_spec [640; 960; 1280] 800 1000 world_demo). discriminate.
Defined.

(** An element equal to the smaller side of the image is not larger
    than the image, and yet the crop size falls back to 320. *)
Lemma crop_size_fallback_at_equality :
  (random_randint 0 (Z.of_nat (length [640; 960; 1280]) - 1) world_demo).1 = Ok 0 /\
  py_index [640; 960; 1280] 0 = Ok 640 /\
  (choose_crop_size [640; 960; 1280] 640 640 world_demo).1 = Ok 320 /\
  crop_size_if_larger 640 640 640 = 640 /\
  (choose_crop_size [640; 960; 1280] 640 640 world_demo).1
  <> Ok (crop_size_if_larger 640 640 640).
Proof. repeat split; try reflexivity. vm_compute. discriminate. Qed.


(** ** Searching the trimap *)

Lemma elem_of_np_where cond a y x :
  (y, x) ∈ np_where cond a <->
  exists p v, pixel (as3 a) y x = Some p /\ v ∈ p /\ cond v = true.
Proof.
  unfold np_where. rewrite list_elem_of_join. split.
  - intros (l & Hyx & Hl).
    apply elem_of_lookup_imap in Hl as (i & row & -> & Hrow).
    apply list_elem_of_join in Hyx as (l & Hyx & Hl).
    apply elem_of_lookup_imap in Hl as (j & p & -> & Hp).
    apply list_elem_of_fmap in Hyx as (v & [= -> ->] & Hv).
    apply list_elem_of_In, filter_In in Hv as [Hv Hc].
    exists p, v. split; [|split; [now apply list_elem_of_In|exact Hc]].
    apply pixel_Some. split; [lia|]. split; [lia|].
    exists row. rewrite !Nat2Z.id. auto.
  - intros (p & v & Hp & Hv & Hc).
    apply pixel_Some in Hp as (Hy & Hx & row & Hrow & Hp).
    eexists. split.
    2:{ apply elem_of_lookup_imap. exists (Z.to_nat y), row. split; [reflexivity|exact Hrow]. }
    apply list_elem_of_join. eexists. split.
    2:{ apply elem_of_lookup_imap. exists (Z.to_nat x), p. split; [reflexivity|exact Hp]. }
    apply list_elem_of_fmap. exists v. rewrite !Z2Nat.id by lia. split; [reflexivity|].
    apply list_elem_of_In, filter_In. split; [now apply list_elem_of_In|exact Hc].
Qed.

Lemma is_128_above_m100 v : is_128 v = true -> above_m100 v = true.
Proof.
  unfold is_128, above_m100. intros H. apply Qeq_bool_iff in H.
  apply negb_true_iff. destruct (Qle_bool v (-100)) eqn:Hle; [|reflexivity].
  apply Qle_bool_iff in Hle. rewrite H in Hle. vm_compute in Hle. now destruct Hle.
Qed.

Lemma np_where_128_subset a yx :
  yx ∈ np_where is_128 a -> yx ∈ np_where above_m100 a.
Proof.
  destruct yx as [y x]. rewrite !elem_of_np_where.
  intros (p & v & Hp & Hv & Hc). exists p, v. auto using is_128_above_m100.
Qed.

Lemma py_slice_head {A} (l : list A) e x :
  0 < e -> l !! 0%nat = Some x -> py_slice 0 e l !! 0%nat = Some x.
Proof.
  intros He Hx. unfold py_slice, slice_bound.
  assert (Hlen : (0 < length l)%nat) by (eapply lookup_lt_Some, Hx).
  destruct (Z.ltb_spec 0 0); [lia|]. destruct (Z.ltb_spec e 0); [lia|].
  replace (Z.to_nat (Z.min 0 (Z.of_nat (length l)))) with 0%nat by lia.
  rewrite drop_0, lookup_take_lt by lia. exact Hx.
Qed.

(** The top-left pixel of a buffer lies in the search window as soon
    as the window has a positive extent on both axes. *)
Lemma window_top_left (t : Img Q) h w cs v :
  cs < h -> cs < w -> pixel t 0 0 = Some v -> above_m100 v = true ->
  (0, 0) ∈ np_where above_m100 (nd_slice2 0 (h - cs) 0 (w - cs) (Gray t)).
Proof.
  intros Hh Hw Hv Hc. apply elem_of_np_where. exists [v], v.
  split; [|split; [left|exact Hc]].
  apply pixel_Some in Hv as (_ & _ & row & Hrow & Hv).
  change (Z.to_nat 0) with 0%nat in Hrow, Hv.
  simpl. rewrite pixel_img_map. unfold pixel, slice2. simpl.
  change (Z.to_nat 0) with 0%nat.
  rewrite list_lookup_fmap, (py_slice_head t (h - cs) row) by (lia || done). simpl.
  rewrite (py_slice_head row (w - cs) v) by (lia || done). reflexivity.
Qed.

(** ** Selection of the crop origin *)

Section CropOrigin.
Variables (h w crop_size : Z) (trimap : ndarray) (wd : World).

Let window := nd_slice2 0 (h - crop_size) 0 (w - crop_size) trimap.
Let unknown := np_where is_128 window.
Let anywhere := np_where above_m100 window.

Lemma crop_origin_cases :
  ((exists r, (crop_origin h w crop_size trimap wd).1 = Ok r) <-> anywhere <> []) /\
  (forall cropx cropy,
     (crop_origin h w crop_size trimap wd).1 = Ok (cropx, cropy) ->
     (cropy, cropx) ∈ anywhere /\
     ((random_lt_half wd).1 = Ok true -> unknown <> [] -> (cropy, cropx) ∈ unknown)) /\
  (forall t v,
     trimap = Gray t -> crop_size < h -> crop_size < w ->
     pixel t 0 0 = Some v -> above_m100 v = true ->
     exists r, (crop_origin h w crop_size trimap wd).1 = Ok r).
Proof.
  assert (Hrun : forall target,
    target = (let t0 := if (random_lt_half wd).1 is Ok true then unknown else anywhere in
              if (length t0 =? 0)%nat then anywhere else t0) ->
    (target = [] /\ (crop_origin h w crop_size trimap wd).1 = Raise ValueError) \/
    (exists yx, yx ∈ target /\ (crop_origin h w crop_size trimap wd).1 = Ok (yx.2, yx.1))).
  { intros target Ht. unfold crop_origin. fold window. fold unknown. fold anywhere.
    destruct (random_lt_half_run wd) as [b Hb]. rewrite Hb in Ht. simpl in Ht.
    rewrite bind_run, Hb.
    assert (Ht' : target = (if (length (if b then unknown else anywhere) =? 0)%nat
                            then anywhere else if b then unknown else anywhere))
      by (rewrite Ht; destruct b; reflexivity).
    rewrite <- Ht'. clear Ht Ht'.
    destruct target as [|yx0 target'] eqn:Etarget.
    - left. split; [reflexivity|]. rewrite bind_run, np_random_randint_raises by (simpl; lia).
      reflexivity.
    - right. rewrite <- Etarget.
      assert (Hlen : 0 < Z.of_nat (length target)) by (rewrite Etarget; simpl; lia).
      rewrite bind_run, np_random_randint_run by exact Hlen.
      set (i := _ mod _).
      assert (Hi : 0 <= i < Z.of_nat (length target))
        by (subst i; apply Z.mod_pos_bound; exact Hlen).
      destruct (py_index_in_range target i Hi) as (yx & Hidx & Hlk).
      exists yx. split; [eapply list_elem_of_lookup_2, Hlk|].
      rewrite bind_run, liftR_run, Hidx. reflexivity. }
  assert (Hsub : unknown = [] \/ anywhere <> []).
  { destruct unknown as [|yx l] eqn:E; [now left|right].
    assert (Hin : yx ∈ anywhere) by (apply np_where_128_subset; fold unknown; rewrite E; left).
    intros Hnil. rewrite Hnil in Hin. inversion Hin. }
  specialize (Hrun _ eq_refl). cbv zeta in Hrun.
  assert (Htarget : forall yx,
    yx ∈ (if (length (if (random_lt_half wd).1 is Ok true then unknown else anywhere) =? 0)%nat
          then anywhere
          else if (random_lt_half wd).1 is Ok true then unknown else anywhere) ->
    yx ∈ anywhere /\
    ((random_lt_half wd).1 = Ok true -> unknown <> [] -> yx ∈ unknown)).
  { intros yx. destruct (random_lt_half_run wd) as [b Hb]. rewrite Hb. simpl.
    destruct b.
    - destruct unknown as [|u l] eqn:E; simpl.
      + intros Hin. split; [exact Hin|]. intros _ Hne. now destruct Hne.
      + intros Hin. split; [|auto].
        apply np_where_128_subset. fold unknown. rewrite E. exact Hin.
    - destruct (length anywhere =? 0)%nat; intros Hin; (split; [exact Hin|discriminate]). }
  split; [|split].
  - split.
    + intros [r Hr] Hnil. destruct Hrun as [[_ Hraise]|(yx & Hin & _)].
      * rewrite Hraise in Hr. discriminate.
      * apply Htarget in Hin as [Hin _]. rewrite Hnil in Hin. inversion Hin.
    + intros Hne. destruct Hrun as [[Hnil _]|(yx & _ & Hok)]; [|eauto].
      exfalso. revert Hnil. destruct (random_lt_half_run wd) as [b Hb]. rewrite Hb. simpl.
      destruct b; [destruct unknown eqn:E|]; simpl.
      * exact Hne.
      * discriminate.
      * destruct anywhere; [now destruct Hne|discriminate].
  - intros cropx cropy Hr. destruct Hrun as [[_ Hraise]|(yx & Hin & Hok)].
    + rewrite Hraise in Hr. discriminate.
    + rewrite Hok in Hr. injection Hr as <- <-.
      destruct yx as [y x]. apply Htarget in Hin. exact Hin.
  - intros t v -> Hh Hw Hv Hc.
    pose proof (window_top_left t h w crop_size v Hh Hw Hv Hc) as Hin.
    fold window in Hin. fold anywhere in Hin.
    destruct Hrun as [[Hnil _]|(yx & _ & Hok)]; [|eauto].
    exfalso. revert Hnil. destruct (random_lt_half_run wd) as [b Hb]. rewrite Hb. simpl.
    destruct b; [destruct unknown eqn:E|]; simpl.
    * intros Hnil. rewrite Hnil in Hin. inversion Hin.
    * discriminate.
    * destruct anywhere; [inversion Hin|discriminate].
Qed.
(** C2. The selection returns a crop origin exactly when the search
    window [trimap[:h-crop_size, :w-crop_size]] holds a pixel valued
    above -100.  It then never raises: if the biased search finds no
    pixel valued 128 the unbiased search is used; the origin is a
    position of the window found by the search in use.  For a rank-2
    trimap whose top-left pixel is above -100 (every 8-bit value is)
    the window is not empty as soon as [crop_size < h] and
    [crop_size < w]. *)
Theorem crop_origin_returns :
  ((exists r, (crop_origin h w crop_size trimap wd).1 = Ok r) <-> anywhere <> []) /\
  (forall cropx cropy,
     (crop_origin h w crop_size trimap wd).1 = Ok (cropx, cropy) ->
     (cropy, cropx) ∈ anywhere /\
     ((random_lt_half wd).1 = Ok true -> unknown <> [] -> (cropy, cropx) ∈ unknown)) /\
  (forall t v,
     trimap = Gray t -> crop_size < h -> crop_size < w ->
     pixel t 0 0 = Some v -> above_m100 v = true ->
     exists r, (crop_origin h w crop_size trimap wd).1 = Ok r).
Proof. apply crop_origin_cases. Qed.
End CropOrigin.

Lemma crop_origin_returns_witness :
  2 < 5 /\ pixel alpha_demo 0 0 = Some 0%Q /\ above_m100 0 = true /\
  exists r, (crop_origin 5 5 2 (Gray alpha_demo) world_demo).1 = Ok r.
Proof.
  repeat split; try reflexivity.
  apply (proj2 (proj2 (crop_origin_returns 5 5 2 (Gray alpha_demo) world_demo))
           alpha_demo 0%Q); reflexivity.
Defined.

(** A 320 x 320 image: no element of [CROP_SIZE] is below 320, the crop
    size falls back to 320, the window [trimap[:0, :0]] is empty and
    [np.random.randint(0, size=1)] raises. *)
Lemma crop_origin_raises_on_320 :
  (choose_crop_size [640; 960; 1280] 320 320 world_demo).1 = Ok 320 /\
  (forall wd, (crop_origin 320 320 320 (Gray (replicate 320 (replicate 320 255%Q))) wd).1
              = Raise ValueError) /\
  (MattingTransform__call__ nearest_value [640; 960; 1280] 320 (flat_argv 320 320)
     world_demo).1 = Raise ValueError.
Proof.
  split; [reflexivity|]. split; [|vm_compute; reflexivity].
  intros wd. unfold crop_origin. destruct (random_lt_half_run wd) as [b Hb].
  rewrite bind_run, Hb. destruct b; vm_compute; reflexivity.
Qed.


(** ** Shapes of what OpenCV returns *)

Lemma tabulate2_sized {A} (h w : nat) (f : nat -> nat -> A) :
  sized (Z.of_nat h) (Z.of_nat w) (tabulate2 h w f).
Proof.
  unfold sized, tabulate2. split.
  - now rewrite length_fmap, length_seq.
  - apply Forall_fmap, Forall_forall. intros y _. simpl.
    now rewrite length_fmap, length_seq.
Qed.

Lemma img_map_sized {A B} (g : A -> B) h w (a : Img A) :
  sized h w a -> sized h w (img_map g a).
Proof.
  unfold sized, img_map. intros [Hh Hw]. split.
  - now rewrite length_fmap.
  - apply Forall_fmap. eapply Forall_impl; [exact Hw|].
    intros r Hr. simpl. now rewrite length_fmap.
Qed.

Lemma cv2_out_sized h w (a : Img (list Q)) :
  sized h w a -> spatial_size (cv2_out a) h w.
Proof.
  intros Ha. unfold cv2_out. destruct (chans a =? 1)%nat; simpl; [|exact Ha].
  now apply img_map_sized.
Qed.

Section Transform.
Variable resize_value : Z -> Img (list Q) -> nat -> nat -> nat -> Q.
Variable CROP_SIZE : list Z.
Variable RESIZE_SIZE : Z.

Lemma cv2_resize_size src s o :
  cv2_resize resize_value src s = Ok o -> spatial_size o s s.
Proof.
  unfold cv2_resize. destruct (nd_empty src); [discriminate|].
  destruct (Z.leb_spec s 0); [discriminate|]. simpl. intros [= <-].
  apply cv2_out_sized. unfold tabulate3.
  rewrite <- (Z2Nat.id s) at 1 2 by lia. apply tabulate2_sized.
Qed.

Lemma transform_items (argv out : list ndarray) (wd : World) :
  (MattingTransform__call__ resize_value CROP_SIZE RESIZE_SIZE argv wd).1 = Ok out ->
  exists cropy cropx crop_size (flip_flag : bool),
    Forall2 (fun item o =>
      exists flipped,
        let cropped :=
          nd_slice2 cropy (cropy + crop_size) cropx (cropx + crop_size) item in
        (if flip_flag then cv2_flip_1 cropped else Ok cropped) = Ok flipped /\
        cv2_resize resize_value flipped RESIZE_SIZE = Ok o /\
        spatial_size o RESIZE_SIZE RESIZE_SIZE) argv out.
Proof.
  unfold MattingTransform__call__. intros H.
  apply bind_Ok_inv in H as (ori & _ & H).
  apply bind_Ok_inv in H as ([[h w] c] & _ & H).
  apply bind_Ok_inv in H as (crop_size & _ & H).
  apply bind_Ok_inv in H as (trimap & _ & H).
  apply bind_Ok_inv in H as ([cropx cropy] & _ & H).
  apply bind_Ok_inv in H as (flip_flag & _ & H).
  rewrite liftR_run in H. simpl in H. apply mapM_Res_Ok in H.
  exists cropy, cropx, crop_size, flip_flag.
  eapply Forall2_impl; [exact H|]. intros item o Hitem. cbv beta in Hitem.
  unfold transform_item in Hitem.
  destruct (if flip_flag then _ else _) as [flipped|] eqn:Hflip; [|discriminate].
  simpl in Hitem. exists flipped. cbv zeta.
  split; [reflexivity|]. split; [exact Hitem|].
  eapply cv2_resize_size, Hitem.
Qed.

End Transform.



(** ** Channel-first tensors *)





Lemma tensor_shape_to_tensor item h w :
  spatial_size item h w -> tensor_shape (to_tensor item) (channels_of item) h w.
Proof.
  destruct item as [a|a]; simpl; intros Ha.
  - split; [reflexivity|]. repeat constructor; apply Ha.
  - unfold permute_2_0_1. split; [now rewrite length_fmap, length_seq|].
    apply Forall_fmap, Forall_forall. intros k _. now apply img_map_sized.
Qed.

Section GetItem.
Variable sk_resize : ndarray -> list nat -> list nat -> Q.
Variables blur_value resize_value : Z -> Img (list Q) -> nat -> nat -> nat -> Q.
Variable CROP_SIZE : list Z.
Variable RESIZE_SIZE : Z.



End GetItem.



(** ** Elementwise arithmetic on arrays of one shape *)

Lemma mapM_Res_pure {A B} (g : A -> B) (l : list A) :
  mapM_Res (fun a => Ok (g a)) l = Ok (g <$> l).
Proof. induction l as [|a l IH]; simpl; [reflexivity|]. rewrite IH. reflexivity. Qed.







(** ** Rectangular arrays *)

Lemma rect3_tabulate3 (h w c : nat) (f : nat -> nat -> nat -> Q) :
  rect3 (tabulate3 h w c f) h w c.
Proof.
  unfold rect3, tabulate3, tabulate2. split; [now rewrite length_fmap, length_seq|].
  apply Forall_fmap, Forall_forall. intros y _. simpl.
  split; [now rewrite length_fmap, length_seq|].
  apply Forall_fmap, Forall_forall. intros x _. simpl.
  now rewrite length_fmap, length_seq.
Qed.

Lemma rect2_img_map (g : Q -> Q) m h w : rect2 m h w -> rect2 (img_map g m) h w.
Proof.
  unfold rect2, img_map. intros [Hh Hw]. split; [now rewrite length_fmap|].
  apply Forall_fmap. eapply Forall_impl; [exact Hw|].
  intros r Hr. simpl. now rewrite length_fmap.
Qed.

Lemma rect2_rect3_rows m a h w c :
  rect2 m h w -> rect3 a h w c ->
  Forall2 (fun (r : list Q) (s : list (list Q)) => length r = length s) m a.
Proof.
  intros [Hmh Hmw] [Hah Haw]. apply Forall2_same_length_lookup_2; [congruence|].
  intros i r s Hr Hs.
  rewrite Forall_lookup in Hmw. rewrite Forall_lookup in Haw.
  specialize (Hmw i r Hr). destruct (Haw i s Hs) as [Hsw _]. congruence.
Qed.





Lemma img_map_singleton (g : Q -> Q) (al : Img Q) :
  img_map (fmap g) (img_map (fun v => [v]) al) = img_map (fun v => [v]) (img_map g al).
Proof.
  unfold img_map. rewrite <- !list_fmap_compose. apply list_fmap_ext.
  intros _ r _. simpl. rewrite <- !list_fmap_compose. reflexivity.
Qed.

(** ** [np.uint8] *)





(** ** The alpha blend *)


Section Coco.
Variable sk_resize : ndarray -> list nat -> list nat -> Q.
Variables (F : Img (list Q)) (bg : ndarray) (mask : Img Q) (wd : World).
Hypothesis HF : rect3 F (length F) (cols F) (chans F).
Hypothesis Hmask : rect2 mask (length F) (cols F).

(** The resized background, [resize(bg, fg.shape) * 255.0]. *)
Let B : Img (list Q) :=
  tabulate3 (length F) (cols F) (chans F) (fun y x k =>
    sk_resize bg [length F; cols F; chans F] [y; x; k] * 255)%Q.

Let composite : Img (list Q) :=
  img_map (fmap np_uint8)
    (zip_with (zip_with (zip_with Qplus))
       (zip_with (zip_with (fun v (p : list Q) => Qmult v <$> p))
          (img_map (fun m => m / 255)%Q mask) F)
       (zip_with (zip_with (fun v (p : list Q) => Qmult v <$> p))
          (img_map (fun a => 1 - a)%Q (img_map (fun m => m / 255)%Q mask)) B)).








End Coco.


(** On the sample layers: the left pixel (mask 255) keeps the
    foreground, the right pixel (mask 0) takes the truncated resized
    background 100, 127.5, 255. *)
Example coco_demo :
  (generate_composite_coco sk_nearest (Multi fg_demo) bg_demo mask_demo world_demo).1
  = coco_demo_out /\
  (fun r : ndarray * ndarray * ndarray => r.1.1) <$> coco_demo_out
  = Ok (Multi [[[10; 20; 30]; [100; 127; 255]]]%Q).
Proof. split; vm_compute; reflexivity. Qed.



(** ** Gaussian noise *)

(** The shape NumPy reports for an [(h, w, c)] array. *)
Lemma rect3_dims (a : Img (list Q)) h w c :
  rect3 a h w c ->
  length a = h /\ ((0 < h)%nat -> cols a = w) /\
  ((0 < h)%nat -> (0 < w)%nat -> chans a = c).
Proof.
  intros [Hh Hw]. split; [exact Hh|].
  destruct a as [|row a]; simpl in *; [split; intros; lia|].
  apply Forall_cons in Hw as [[Hr Hc] _]. split; [auto|].
  intros _ Hpos. destruct row as [|p row]; simpl in *; [lia|].
  apply Forall_cons in Hc as [Hp _]. exact Hp.
Qed.



Section Noise.
Variables (C F B : Img (list Q)) (h w c : nat).
Hypothesis HC : rect3 C h w c.
Hypothesis HF : rect3 F h w c.
Hypothesis HB : rect3 B h w c.


Variable sk_resize : ndarray -> list nat -> list nat -> Q.
Variable blur_value : Z -> Img (list Q) -> nat -> nat -> nat -> Q.
Variables (fg bg : ndarray) (mask : Img Q) (fg_denoise bg_denoise : option ndarray).
Variable wd : World.


End Noise.


(** The cast wraps on both sides: 250 + 10 becomes 4 and 3 - 5 becomes
    254; a saturating cast would give 255 and 0. *)
Example np_uint8_wraps :
  np_uint8 (250 + 10) = 4%Q /\ np_uint8 (3 + - 5) = 254%Q /\
  np_uint8 (1279 # 10) = 127%Q /\ np_uint8 (- (3 # 2)) = 255%Q.
Proof. repeat split. Qed.

(** The rssn variant, by contrast, depends on the generators: the same
    arguments in two worlds give two different triples. *)
Example generate_composite_rssn_random :
  (generate_composite_rssn sk_nearest no_blur fg_noise bg_noise [[255]]%Q None None
     world_noise).1
  <> (generate_composite_rssn sk_nearest no_blur fg_noise bg_noise [[255]]%Q None None
        world_demo).1.
Proof. vm_compute. discriminate. Qed.


(** ** The transformer returns on buffers larger than the crop *)

Lemma py_slice_length {A} (l : list A) s e :
  0 <= s -> s <= e -> e <= Z.of_nat (length l) ->
  length (py_slice s e l) = Z.to_nat (e - s).
Proof.
  intros Hs Hse He. unfold py_slice, slice_bound.
  destruct (Z.ltb_spec s 0); [lia|]. destruct (Z.ltb_spec e 0); [lia|].
  rewrite length_take, length_drop. lia.
Qed.

Lemma py_slice_length_le {A} (l : list A) e :
  0 <= e -> (length (py_slice 0 e l) <= Z.to_nat e)%nat.
Proof.
  intros He. unfold py_slice, slice_bound.
  destruct (Z.ltb_spec 0 0); [lia|]. destruct (Z.ltb_spec e 0); [lia|].
  rewrite length_take. lia.
Qed.

Lemma py_slice_Forall {A} (P : A -> Prop) (l : list A) s e :
  Forall P l -> Forall P (py_slice s e l).
Proof. intros H. unfold py_slice. now apply Forall_take, Forall_drop. Qed.

Lemma py_slice_fmap {A B} (f : A -> B) (l : list A) s e :
  py_slice s e (f <$> l) = f <$> py_slice s e l.
Proof. unfold py_slice. now rewrite length_fmap, fmap_take, fmap_drop. Qed.

Lemma as3_nd_slice2 y0 y1 x0 x1 a :
  as3 (nd_slice2 y0 y1 x0 x1 a) = slice2 y0 y1 x0 x1 (as3 a).
Proof.
  destruct a as [t|m]; simpl; [|reflexivity].
  unfold slice2, img_map. rewrite py_slice_fmap, <- !list_fmap_compose.
  apply list_fmap_ext. intros _ r _. simpl. now rewrite py_slice_fmap.
Qed.

Lemma full_slice2 (X : Img (list Q)) (hh ww : nat) y0 x0 cs :
  full hh ww X ->
  0 <= y0 -> y0 + cs <= Z.of_nat hh -> 0 <= x0 -> x0 + cs <= Z.of_nat ww -> 0 <= cs ->
  full (Z.to_nat cs) (Z.to_nat cs) (slice2 y0 (y0 + cs) x0 (x0 + cs) X).
Proof.
  intros [Hh Hrows] Hy0 Hy1 Hx0 Hx1 Hcs. unfold slice2. split.
  - rewrite length_fmap, py_slice_length by lia. f_equal. lia.
  - apply Forall_fmap. apply py_slice_Forall.
    eapply Forall_impl; [exact Hrows|]. intros row [Hw Hp]. simpl. split.
    + rewrite py_slice_length by lia. f_equal. lia.
    + now apply py_slice_Forall.
Qed.

Lemma full_reverse (X : Img (list Q)) hh ww :
  full hh ww X -> full hh ww (reverse <$> X).
Proof.
  intros [Hh Hrows]. split; [now rewrite length_fmap|].
  apply Forall_fmap. eapply Forall_impl; [exact Hrows|].
  intros row [Hw Hp]. simpl. split; [now rewrite length_reverse|].
  now apply Forall_reverse.
Qed.

Lemma full_chans_pos (X : Img (list Q)) hh ww :
  full hh ww X -> (0 < hh)%nat -> (0 < ww)%nat -> (0 < chans X)%nat.
Proof.
  intros [Hh Hrows] Hhh Hww.
  destruct X as [|row X]; simpl in *; [lia|].
  apply Forall_cons in Hrows as [[Hw Hp] _].
  destruct row as [|p row]; simpl in *; [lia|].
  apply Forall_cons in Hp as [Hp _]. destruct p; [done|simpl; lia].
Qed.

Lemma full_not_empty a hh ww :
  item_full hh ww a -> (0 < hh)%nat -> (0 < ww)%nat -> nd_empty a = false.
Proof.
  intros Hfull Hhh Hww. pose proof (full_chans_pos _ _ _ Hfull Hhh Hww) as Hc.
  destruct Hfull as [Hh Hrows]. destruct a as [t|m]; simpl in *.
  - unfold img_map in *. rewrite length_fmap in Hh.
    destruct t as [|r t]; simpl in *; [lia|].
    apply Forall_cons in Hrows as [[Hw _] _]. rewrite length_fmap in Hw.
    destruct r; simpl in *; [lia|reflexivity].
  - destruct m as [|r m]; simpl in *; [lia|].
    apply Forall_cons in Hrows as [[Hw _] _].
    destruct r as [|p r]; simpl in *; [lia|].
    destruct p; simpl in *; [lia|reflexivity].
Qed.

Lemma full_cv2_out (X : Img (list Q)) hh ww :
  full hh ww X -> item_full hh ww (cv2_out X).
Proof.
  intros [Hh Hrows]. unfold item_full, cv2_out.
  destruct (chans X =? 1)%nat; simpl; [|split; assumption].
  unfold img_map. split; [now rewrite !length_fmap|].
  rewrite <- list_fmap_compose. apply Forall_fmap.
  eapply Forall_impl; [exact Hrows|]. intros row [Hw _]. simpl.
  split; [now rewrite !length_fmap|].
  rewrite <- list_fmap_compose. apply Forall_fmap, Forall_forall. intros p _. simpl. done.
Qed.

Lemma mapM_Res_total {A B} (f : A -> Res B) (l : list A) :
  Forall (fun x => exists y, f x = Ok y) l ->
  exists k, mapM_Res f l = Ok k /\ length k = length l.
Proof.
  induction 1 as [|x l [y Hy] _ [k [Hk Hlen]]]; simpl; [eauto|].
  rewrite Hy. simpl. rewrite Hk. simpl. eexists. split; [reflexivity|]. simpl. lia.
Qed.

Lemma py_index_0 {A} (a : A) (l : list A) : py_index (a :: l) 0 = Ok a.
Proof.
  unfold py_index. change (0 <? 0) with false. cbv iota.
  destruct (Z.ltb_spec 0 0); [lia|].
  destruct (Z.leb_spec (Z.of_nat (length (a :: l))) 0) as [Hlen|_]; [simpl in Hlen; lia|].
  reflexivity.
Qed.

Lemma py_index_1 {A} (a b : A) (l : list A) : py_index (a :: b :: l) 1 = Ok b.
Proof.
  unfold py_index. change (1 <? 0) with false. cbv iota.
  destruct (Z.ltb_spec 1 0); [lia|].
  destruct (Z.leb_spec (Z.of_nat (length (a :: b :: l))) 1) as [Hlen|_]; [simpl in Hlen; lia|].
  reflexivity.
Qed.

Section Returns.
Variable resize_value : Z -> Img (list Q) -> nat -> nat -> nat -> Q.
Variable CROP_SIZE : list Z.
Variable RESIZE_SIZE : Z.

Lemma transform_item_total item (hh ww : nat) cropy cropx cs flip_flag :
  item_full hh ww item ->
  0 <= cropy -> cropy + cs <= Z.of_nat hh -> 0 <= cropx -> cropx + cs <= Z.of_nat ww ->
  0 < cs -> 0 < RESIZE_SIZE ->
  exists o, transform_item resize_value cropy cropx cs flip_flag RESIZE_SIZE item = Ok o.
Proof.
  intros Hfull Hy0 Hy1 Hx0 Hx1 Hcs Hrs. unfold transform_item.
  set (cropped := nd_slice2 cropy (cropy + cs) cropx (cropx + cs) item).
  assert (Hc : item_full (Z.to_nat cs) (Z.to_nat cs) cropped).
  { unfold item_full, cropped. rewrite as3_nd_slice2. apply (full_slice2 _ hh ww); auto; lia. }
  assert (Hne : nd_empty cropped = false) by (apply (full_not_empty _ _ _ Hc); lia).
  assert (Hflip : exists flipped,
            (if flip_flag then cv2_flip_1 cropped else Ok cropped) = Ok flipped /\
            nd_empty flipped = false).
  { destruct flip_flag; [|eauto]. unfold cv2_flip_1. rewrite Hne.
    eexists. split; [reflexivity|].
    apply (full_not_empty _ (Z.to_nat cs) (Z.to_nat cs)); [|lia|lia].
    apply full_cv2_out, full_reverse, Hc. }
  destruct Hflip as (flipped & -> & Hne'). simpl.
  unfold cv2_resize. rewrite Hne'. destruct (Z.leb_spec RESIZE_SIZE 0); [lia|].
  simpl. eauto.
Qed.

(** On buffers of one spatial size whose smaller side exceeds 320 (so
    that every crop size the transformer can choose fits strictly),
    with positive configured sizes and a rank-2 trimap valued above
    -100, [MattingTransform.__call__] returns one buffer per input. *)
Lemma MattingTransform__call___returns (O : Img (list Q)) (T : Img Q)
    (rest : list ndarray) (hh ww : nat) (wd : World) :
  CROP_SIZE <> [] -> Forall (fun c => 0 < c) CROP_SIZE -> 0 < RESIZE_SIZE ->
  320 < Z.min (Z.of_nat hh) (Z.of_nat ww) ->
  Forall (item_full hh ww) (Multi O :: Gray T :: rest) ->
  (forall y x v, pixel T y x = Some v -> above_m100 v = true) ->
  exists out,
    (MattingTransform__call__ resize_value CROP_SIZE RESIZE_SIZE
       (Multi O :: Gray T :: rest) wd).1 = Ok out /\
    length out = length (Multi O :: Gray T :: rest).
Proof.
  intros Hne Hpos Hrs Hbig Hfull Habove.
  pose proof Hfull as Hfull'.
  apply Forall_cons in Hfull' as [HO Hfull']. apply Forall_cons in Hfull' as [HT _].
  assert (HhO : length O = hh) by apply HO.
  assert (HwO : cols O = ww).
  { destruct HO as [Hh Hrows]. simpl in *. destruct O as [|r O]; simpl in *; [lia|].
    apply Forall_cons in Hrows as [[Hw _] _]. exact Hw. }
  unfold MattingTransform__call__.
  rewrite bind_run, liftR_run, py_index_0.
  rewrite bind_run, liftR_run. cbn [shape3]. rewrite HhO, HwO.
  destruct (choose_crop_size_cases CROP_SIZE (Z.of_nat hh) (Z.of_nat ww) wd Hne)
    as (chosen & Hin & Hcases).
  assert (Hcs : exists cs, (choose_crop_size CROP_SIZE (Z.of_nat hh) (Z.of_nat ww) wd).1 = Ok cs
                           /\ 0 < cs < Z.min (Z.of_nat hh) (Z.of_nat ww)).
  { rewrite Forall_forall in Hpos. specialize (Hpos chosen Hin).
    destruct Hcases as [[Hlt ->]|[_ ->]]; eexists; (split; [reflexivity|lia]). }
  destruct Hcs as (cs & Hcs & Hrange).
  rewrite (bind_Ok_run _ _ _ cs) by exact Hcs.
  set (w1 := (choose_crop_size CROP_SIZE (Z.of_nat hh) (Z.of_nat ww) wd).2).
  rewrite bind_run, liftR_run, py_index_1.
  (* the crop origin *)
  assert (HT0 : exists v, pixel T 0 0 = Some v).
  { destruct HT as [Hh Hrows]. simpl in *. unfold img_map in *. rewrite length_fmap in Hh.
    destruct T as [|r T']; simpl in *; [lia|].
    apply Forall_cons in Hrows as [[Hw _] _]. rewrite length_fmap in Hw.
    destruct r as [|v r]; simpl in *; [lia|]. exists v. reflexivity. }
  destruct HT0 as [v0 Hv0].
  destruct (crop_origin_cases (Z.of_nat hh) (Z.of_nat ww) cs (Gray T) w1)
    as (_ & Hmem & Hret).
  destruct (Hret T v0 eq_refl ltac:(lia) ltac:(lia) Hv0 (Habove _ _ _ Hv0))
    as [[cropx cropy] Hor].
  destruct (Hmem _ _ Hor) as [Hin' _].
  apply elem_of_np_where in Hin' as (p & _ & Hp & _).
  rewrite as3_nd_slice2 in Hp. apply pixel_Some in Hp as (Hy0 & Hx0 & row & Hrow & Hpx).
  unfold slice2 in Hrow. rewrite list_lookup_fmap in Hrow.
  destruct (py_slice 0 (Z.of_nat hh - cs) (as3 (Gray T)) !! Z.to_nat cropy)
    as [r|] eqn:Hr; [|discriminate].
  injection Hrow as <-.
  assert (Hylt : (Z.to_nat cropy < Z.to_nat (Z.of_nat hh - cs))%nat).
  { apply lookup_lt_Some in Hr.
    pose proof (py_slice_length_le (as3 (Gray T)) (Z.of_nat hh - cs) ltac:(lia)). lia. }
  assert (Hxlt : (Z.to_nat cropx < Z.to_nat (Z.of_nat ww - cs))%nat).
  { apply lookup_lt_Some in Hpx.
    pose proof (py_slice_length_le r (Z.of_nat ww - cs) ltac:(lia)). lia. }
  rewrite (bind_Ok_run _ _ _ (cropx, cropy)) by exact Hor.
  cbv beta iota.
  set (w2 := (crop_origin (Z.of_nat hh) (Z.of_nat ww) cs (Gray T) w1).2).
  destruct (random_lt_half_run w2) as [flip_flag Hflip].
  rewrite bind_run, Hflip, liftR_run. cbn [fst].
  apply mapM_Res_total. eapply Forall_impl; [exact Hfull|].
  intros item Hitem. apply (transform_item_total item hh ww); auto; lia.
Qed.
End Returns.


(** ** The functions at work *)

Example py_slice_negative_stop :
  py_slice 0 (-1) [1; 2; 3] = [1; 2] /\ py_slice 0 (-5) [1; 2; 3] = [] /\
  py_slice 1 9 [1; 2; 3] = [2; 3].
Proof. repeat split. Qed.

Example py_index_wraps :
  py_index [10; 20; 30] (-1) = Ok 30 /\ py_index [10; 20; 30] 3 = Raise IndexError.
Proof. split; reflexivity. Qed.

Example trim_img_first_channel :
  trim_img (Multi [[[1; 2; 3]; [4; 5; 6]]]%Q) = Ok [[1; 4]]%Q /\
  trim_img (Gray [[7; 8]]%Q) = Ok [[7; 8]]%Q.
Proof. split; reflexivity. Qed.

Example np_where_row_major :
  np_where is_128 (Gray [[0; 128]; [128; 255]]%Q) = [(0, 1); (1, 0)] /\
  np_where above_m100 (Gray [[0; 128]]%Q) = [(0, 0); (0, 1)].
Proof. split; reflexivity. Qed.

(** A window of three rows fewer than the crop is taken from the end:
    a 300-row trimap sliced at [:300 - 320] keeps 280 rows. *)
Example window_of_small_image :
  length (py_slice 0 (300 - 320) (replicate 300 0%Q)) = 280%nat /\
  length (py_slice 0 (320 - 320) (replicate 320 0%Q)) = 0%nat /\
  length (py_slice 0 (160 - 320) (replicate 160 0%Q)) = 0%nat.
Proof. repeat split; vm_compute; reflexivity. Qed.

Example broadcast_mismatch :
  np_binop Qmult (Multi [[[1; 2]]; [[3; 4]]]%Q) (Multi [[[1]]; [[1]]; [[1]]]%Q)
  = Raise ValueError.
Proof. reflexivity. Qed.

Example getitem_missing_file :
  (MattingDataset__getitem__ sk_nearest no_blur nearest_value [2] 3 0
     {| py_tape := py_tape world_demo; py_pos := 0; np_tape := np_tape world_demo;
        np_normals := np_normals world_demo; np_pos := 0;
        files := fun _ => None; self := dataset_demo |}).1
  = Raise FileNotFoundError /\
  (MattingDataset__getitem__ sk_nearest no_blur nearest_value [2] 3 1 world_demo).1
  = Raise IndexError.
Proof. split; vm_compute; reflexivity. Qed.


(** * Further properties *)

(** ** Trimap labels and the kernel neighbourhood *)

Lemma foldr_min_ge b (l : list Z) c :
  c <= b -> (forall v, v ∈ l -> c <= v) -> c <= foldr Z.min b l.
Proof.
  intros Hb Hl. induction l as [|u l IH]; simpl; [exact Hb|].
  assert (c <= u) by (apply Hl; left).
  assert (c <= foldr Z.min b l) by (apply IH; intros v Hv; apply Hl; now right).
  lia.
Qed.

Lemma foldr_max_le b (l : list Z) c :
  b <= c -> (forall v, v ∈ l -> v <= c) -> foldr Z.max b l <= c.
Proof.
  intros Hb Hl. induction l as [|u l IH]; simpl; [exact Hb|].
  assert (u <= c) by (apply Hl; left).
  assert (foldr Z.max b l <= c) by (apply IH; intros v Hv; apply Hl; now right).
  lia.
Qed.

Lemma fg_of_pixel alpha y x :
  pixel (fg_of alpha) y x = (fun a : Q => if Qeq_bool a 255 then 1 else 0) <$> pixel alpha y x.
Proof. unfold fg_of. apply pixel_img_map. Qed.

Lemma fg_and_unknown_of_pixel alpha y x :
  pixel (fg_and_unknown_of alpha) y x
  = (fun a : Q => if Qeq_bool a 0 then 0 else 1) <$> pixel alpha y x.
Proof. unfold fg_and_unknown_of. apply pixel_img_map. Qed.

(** The eroded mask is 1 at a pixel exactly when every pixel of the
    buffer under the kernel is exactly 255. *)
Lemma eroded_one alpha k K y x a :
  getStructuringElement_ELLIPSE k = Ok K ->
  pixel alpha y x = Some a ->
  eroded alpha K y x = 1 <->
  forall o b, o ∈ kernel_offsets K ->
    pixel alpha (y + o.1) (x + o.2) = Some b -> (b == 255)%Q.
Proof.
  intros HK Ha.
  destruct (eroded_dilated alpha k K y x a HK Ha) as (He & _ & _).
  pose proof FLT_MAX_big as Hbig. split.
  - intros H1 o b Ho Hb.
    assert (Hle : eroded alpha K y x
                  <= border_pixel FLT_MAX (fg_of alpha) (y + o.1) (x + o.2)).
    { apply foldr_min_le, list_elem_of_fmap. exists o. auto. }
    unfold border_pixel in Hle. rewrite fg_of_pixel, Hb in Hle. simpl in Hle.
    destruct (Qeq_bool b 255) eqn:E; [now apply Qeq_bool_iff|lia].
  - intros Hall.
    assert (Hge : 1 <= eroded alpha K y x).
    { apply foldr_min_ge; [lia|]. intros v Hv.
      apply list_elem_of_fmap in Hv as (o & -> & Ho).
      unfold border_pixel. rewrite fg_of_pixel.
      destruct (pixel alpha (y + o.1) (x + o.2)) as [b|] eqn:Hb; simpl; [|lia].
      specialize (Hall o b Ho Hb). apply Qeq_bool_iff in Hall. rewrite Hall. lia. }
    lia.
Qed.

(** The dilated mask is 0 at a pixel exactly when every pixel of the
    buffer under the kernel is 0. *)
Lemma dilated_zero alpha k K y x a :
  getStructuringElement_ELLIPSE k = Ok K ->
  pixel alpha y x = Some a ->
  dilated alpha K y x = 0 <->
  forall o b, o ∈ kernel_offsets K ->
    pixel alpha (y + o.1) (x + o.2) = Some b -> (b == 0)%Q.
Proof.
  intros HK Ha.
  destruct (eroded_dilated alpha k K y x a HK Ha) as (_ & Hd & _).
  pose proof FLT_MAX_big as Hbig. split.
  - intros H0 o b Ho Hb.
    assert (Hle : border_pixel (- FLT_MAX) (fg_and_unknown_of alpha) (y + o.1) (x + o.2)
                  <= dilated alpha K y x).
    { apply foldr_max_ge, list_elem_of_fmap. exists o. auto. }
    unfold border_pixel in Hle. rewrite fg_and_unknown_of_pixel, Hb in Hle. simpl in Hle.
    destruct (Qeq_bool b 0) eqn:E; [now apply Qeq_bool_iff|lia].
  - intros Hall.
    assert (Hge : dilated alpha K y x <= 0).
    { apply foldr_max_le; [lia|]. intros v Hv.
      apply list_elem_of_fmap in Hv as (o & -> & Ho).
      unfold border_pixel. rewrite fg_and_unknown_of_pixel.
      destruct (pixel alpha (y + o.1) (x + o.2)) as [b|] eqn:Hb; simpl; [|lia].
      specialize (Hall o b Ho Hb). apply Qeq_bool_iff in Hall. rewrite Hall. lia. }
    lia.
Qed.

(** The trimap value in terms of the two masks. *)
Lemma trimap_value_cases alpha k K y x a :
  getStructuringElement_ELLIPSE k = Ok K ->
  pixel alpha y x = Some a ->
  let v := (eroded alpha K y x * 255
            + (dilated alpha K y x - eroded alpha K y x) * 128) mod 256 in
  (v = 255 <-> eroded alpha K y x = 1) /\
  (v = 0 <-> dilated alpha K y x = 0) /\
  (v = 0 \/ v = 128 \/ v = 255).
Proof.
  intros HK Ha v. subst v.
  destruct (eroded_dilated alpha k K y x a HK Ha) as (He & Hd & Hle).
  destruct He as [E | E], Hd as [D | D]; rewrite E, D in *; try lia;
    (split; [|split]); vm_compute; try tauto;
    try (split; intros; congruence); try (split; intros; lia).
Qed.

(** X1. The label of a trimap pixel is decided by the part of the
    buffer under the elliptical kernel centred on it: 255 exactly when
    every such pixel is exactly 255, 0 exactly when every such pixel is
    0, and 128 in every other case.  Pixels outside the buffer do not
    count. *)
Theorem trimap_label_by_neighbourhood (alpha : Img Q) (kernel_size : Z) (t : Img Z) :
  gen_trimap_with_dilate alpha kernel_size = Ok t ->
  exists K, getStructuringElement_ELLIPSE kernel_size = Ok K /\
  forall y x a, pixel alpha y x = Some a ->
    exists v, pixel t y x = Some v /\
      (v = 255 <->
       forall o b, o ∈ kernel_offsets K ->
         pixel alpha (y + o.1) (x + o.2) = Some b -> (b == 255)%Q) /\
      (v = 0 <->
       forall o b, o ∈ kernel_offsets K ->
         pixel alpha (y + o.1) (x + o.2) = Some b -> (b == 0)%Q) /\
      (v = 0 \/ v = 128 \/ v = 255).
Proof.
  intros Ht. destruct (gen_trimap_with_dilate_pixel _ _ _ Ht) as (K & HK & Hpix).
  exists K. split; [exact HK|]. intros y x a Ha.
  eexists. split; [rewrite Hpix, Ha; reflexivity|].
  destruct (trimap_value_cases alpha _ K y x a HK Ha) as (H255 & H0 & Hval).
  split; [|split; [|exact Hval]].
  - rewrite H255. apply (eroded_one alpha kernel_size K y x a HK Ha).
  - rewrite H0. apply (dilated_zero alpha kernel_size K y x a HK Ha).
Qed.

Lemma trimap_label_by_neighbourhood_witness :
  gen_trimap_with_dilate alpha_demo 3 = Ok trimap_demo /\
  exists K, getStructuringElement_ELLIPSE 3 = Ok K /\
  forall y x a, pixel alpha_demo y x = Some a ->
    exists v, pixel trimap_demo y x = Some v /\
      (v = 255 <->
       forall o b, o ∈ kernel_offsets K ->
         pixel alpha_demo (y + o.1) (x + o.2) = Some b -> (b == 255)%Q) /\
      (v = 0 <->
       forall o b, o ∈ kernel_offsets K ->
         pixel alpha_demo (y + o.1) (x + o.2) = Some b -> (b == 0)%Q) /\
      (v = 0 \/ v = 128 \/ v = 255).
Proof.
  split; [vm_compute; reflexivity|].
  apply (trimap_label_by_neighbourhood alpha_demo 3). vm_compute. reflexivity.
Defined.

(** ** Labels against the buffer itself *)

(** At every pixel the eroded mask is below the exactly-255 mask and
    the dilated mask above the non-zero mask. *)
Lemma masks_bound_alpha alpha k K y x a :
  getStructuringElement_ELLIPSE k = Ok K ->
  pixel alpha y x = Some a ->
  eroded alpha K y x <= (if Qeq_bool a 255 then 1 else 0) /\
  (if Qeq_bool a 0 then 0 else 1) <= dilated alpha K y x.
Proof.
  intros HK Ha. apply ellipse_anchor_set in HK. split.
  - apply (erode_value (fg_of alpha) (kernel_offsets K) y x);
      [apply binary_fg_of | exact HK | now rewrite fg_of_pixel, Ha].
  - apply (dilate_value (fg_and_unknown_of alpha) (kernel_offsets K) y x);
      [apply binary_fg_and_unknown_of | exact HK | now rewrite fg_and_unknown_of_pixel, Ha].
Qed.

(** X2. A trimap never contradicts the buffer it was made from: a
    pixel labelled 255 has alpha exactly 255, a pixel labelled 0 has
    alpha 0, and every pixel whose alpha is neither 0 nor 255 is
    labelled 128. *)
Theorem trimap_respects_alpha (alpha : Img Q) (kernel_size : Z) (t : Img Z) :
  gen_trimap_with_dilate alpha kernel_size = Ok t ->
  forall y x a, pixel alpha y x = Some a ->
    exists v, pixel t y x = Some v /\
      (v = 255 -> (a == 255)%Q) /\
      (v = 0 -> (a == 0)%Q) /\
      (~ (a == 0)%Q -> ~ (a == 255)%Q -> v = 128).
Proof.
  intros Ht y x a Ha.
  destruct (gen_trimap_with_dilate_pixel _ _ _ Ht) as (K & HK & Hpix).
  eexists. split; [rewrite Hpix, Ha; reflexivity|].
  destruct (trimap_value_cases alpha _ K y x a HK Ha) as (H255 & H0 & Hval).
  destruct (masks_bound_alpha alpha _ K y x a HK Ha) as [Hlo Hhi].
  destruct (eroded_dilated alpha _ K y x a HK Ha) as (He & Hd & _).
  split; [|split].
  - intros Hv. apply H255 in Hv. rewrite Hv in Hlo.
    destruct (Qeq_bool a 255) eqn:E; [now apply Qeq_bool_iff|lia].
  - intros Hv. apply H0 in Hv. rewrite Hv in Hhi.
    destruct (Qeq_bool a 0) eqn:E; [now apply Qeq_bool_iff|lia].
  - intros Hn0 Hn255.
    destruct (Qeq_bool a 255) eqn:E255; [apply Qeq_bool_iff in E255; contradiction|].
    destruct (Qeq_bool a 0) eqn:E0; [apply Qeq_bool_iff in E0; contradiction|].
    destruct Hval as [Hv|[Hv|Hv]]; [|exact Hv|].
    + apply H0 in Hv. lia.
    + apply H255 in Hv. lia.
Qed.

Lemma trimap_respects_alpha_witness :
  gen_trimap_with_dilate alpha_demo 3 = Ok trimap_demo /\
  forall y x a, pixel alpha_demo y x = Some a ->
    exists v, pixel trimap_demo y x = Some v /\
      (v = 255 -> (a == 255)%Q) /\
      (v = 0 -> (a == 0)%Q) /\
      (~ (a == 0)%Q -> ~ (a == 255)%Q -> v = 128).
Proof.
  split; [vm_compute; reflexivity|].
  apply (trimap_respects_alpha alpha_demo 3). vm_compute. reflexivity.
Defined.

Lemma byte_mask_value (m : Z) :
  m = 0 \/ m = 1 -> ((m * 255) mod 256 = 255 <-> m = 1) /\
                    ((m * 255) mod 256 = 0 \/ (m * 255) mod 256 = 255).
Proof. intros [-> | ->]; vm_compute; split; try tauto; split; congruence. Qed.

(** X3. The two auxiliary targets hold only 0 and 255 and bracket the
    buffer: where [gen_erosion] is 255 the alpha is exactly 255, where
    the alpha is not 0 [gen_dilate] is 255, and [gen_erosion] is 255
    only where [gen_dilate] is. *)
Theorem dilate_erosion_bracket_alpha (alpha : Img Q) (kernel_size : Z) (d e : Img Z) :
  gen_dilate alpha kernel_size = Ok d ->
  gen_erosion alpha kernel_size = Ok e ->
  forall y x a, pixel alpha y x = Some a ->
    exists vd ve, pixel d y x = Some vd /\ pixel e y x = Some ve /\
      (vd = 0 \/ vd = 255) /\ (ve = 0 \/ ve = 255) /\
      (ve = 255 -> (a == 255)%Q) /\
      (~ (a == 0)%Q -> vd = 255) /\
      (ve = 255 -> vd = 255).
Proof.
  intros Hd He y x a Ha.
  assert (exists K, getStructuringElement_ELLIPSE kernel_size = Ok K) as [K HK].
  { revert Hd. unfold gen_dilate.
    destruct (getStructuringElement_ELLIPSE kernel_size); [eauto|discriminate]. }
  do 2 eexists.
  split; [rewrite (gen_dilate_pixel _ _ _ _ HK Hd), Ha; reflexivity|].
  split; [rewrite (gen_erosion_pixel _ _ _ _ HK He), Ha; reflexivity|].
  destruct (masks_bound_alpha alpha _ K y x a HK Ha) as [Hlo Hhi].
  destruct (eroded_dilated alpha _ K y x a HK Ha) as (He01 & Hd01 & Hle).
  destruct (byte_mask_value _ He01) as [He255 Hevals].
  destruct (byte_mask_value _ Hd01) as [Hd255 Hdvals].
  split; [exact Hdvals|]. split; [exact Hevals|]. split; [|split].
  - intros Hv. apply He255 in Hv. rewrite Hv in Hlo.
    destruct (Qeq_bool a 255) eqn:E; [now apply Qeq_bool_iff|lia].
  - intros Hn0. apply Hd255.
    destruct (Qeq_bool a 0) eqn:E0; [apply Qeq_bool_iff in E0; contradiction|]. lia.
  - intros Hv. apply He255 in Hv. apply Hd255. lia.
Qed.

Lemma dilate_erosion_bracket_alpha_witness :
  exists d e,
    gen_dilate alpha_demo 3 = Ok d /\ gen_erosion alpha_demo 3 = Ok e /\
    forall y x a, pixel alpha_demo y x = Some a ->
      exists vd ve, pixel d y x = Some vd /\ pixel e y x = Some ve /\
        (vd = 0 \/ vd = 255) /\ (ve = 0 \/ ve = 255) /\
        (ve = 255 -> (a == 255)%Q) /\
        (~ (a == 0)%Q -> vd = 255) /\
        (ve = 255 -> vd = 255).
Proof.
  do 2 eexists. split; [vm_compute; reflexivity|]. split; [vm_compute; reflexivity|].
  apply (dilate_erosion_bracket_alpha alpha_demo 3); vm_compute; reflexivity.
Defined.

(** X4. A uniform buffer gives a uniform trimap, with no band along
    the image border: all 255 where every alpha is 255, all 0 where
    every alpha is 0. *)
Theorem trimap_of_uniform_alpha (alpha : Img Q) (kernel_size : Z) (t : Img Z) :
  gen_trimap_with_dilate alpha kernel_size = Ok t ->
  ((forall y x a, pixel alpha y x = Some a -> (a == 255)%Q) ->
   forall y x v, pixel t y x = Some v -> v = 255) /\
  ((forall y x a, pixel alpha y x = Some a -> (a == 0)%Q) ->
   forall y x v, pixel t y x = Some v -> v = 0).
Proof.
  intros Ht. destruct (gen_trimap_with_dilate_pixel _ _ _ Ht) as (K & HK & Hpix).
  split; intros Hall y x v Hv; rewrite Hpix in Hv;
    destruct (pixel alpha y x) as [a|] eqn:Ha; try discriminate;
    simpl in Hv; injection Hv as <-;
    destruct (trimap_value_cases alpha _ K y x a HK Ha) as (H255 & H0 & _).
  - apply H255. apply (eroded_one alpha kernel_size K y x a HK Ha).
    intros o b _ Hb. eapply Hall, Hb.
  - apply H0. apply (dilated_zero alpha kernel_size K y x a HK Ha).
    intros o b _ Hb. eapply Hall, Hb.
Qed.

Lemma trimap_of_uniform_alpha_witness :
  gen_trimap_with_dilate [[255; 255]; [255; 255]]%Q 3 = Ok [[255; 255]; [255; 255]] /\
  ((forall y x a, pixel [[255; 255]; [255; 255]]%Q y x = Some a -> (a == 255)%Q) ->
   forall y x v, pixel [[255; 255]; [255; 255]] y x = Some v -> v = 255) /\
  ((forall y x a, pixel [[255; 255]; [255; 255]]%Q y x = Some a -> (a == 0)%Q) ->
   forall y x v, pixel [[255; 255]; [255; 255]] y x = Some v -> v = 0).
Proof.
  split; [vm_compute; reflexivity|].
  apply (trimap_of_uniform_alpha [[255; 255]; [255; 255]]%Q 3). vm_compute. reflexivity.
Defined.

(** X5. The three generators accept exactly the non-empty buffers with
    a kernel size of at least 1: they then return arrays with a pixel
    wherever the buffer has one and nowhere else; on an empty buffer or
    a smaller kernel size each of them raises OpenCV's error. *)
Theorem generators_domain_and_shape (alpha : Img Q) (kernel_size : Z) :
  (1 <= kernel_size -> img_empty alpha = false ->
   exists t d e,
     gen_trimap_with_dilate alpha kernel_size = Ok t /\
     gen_dilate alpha kernel_size = Ok d /\
     gen_erosion alpha kernel_size = Ok e /\
     forall y x,
       (is_Some (pixel t y x) <-> is_Some (pixel alpha y x)) /\
       (is_Some (pixel d y x) <-> is_Some (pixel alpha y x)) /\
       (is_Some (pixel e y x) <-> is_Some (pixel alpha y x))) /\
  (kernel_size <= 0 \/ img_empty alpha = true ->
   gen_trimap_with_dilate alpha kernel_size = Raise cv2_error /\
   gen_dilate alpha kernel_size = Raise cv2_error /\
   gen_erosion alpha kernel_size = Raise cv2_error).
Proof.
  split.
  - intros Hk Hne. destruct (generators_return alpha kernel_size Hk Hne)
      as (t & d & e & Ht & Hd & He).
    exists t, d, e. repeat (split; [assumption|]).
    destruct (gen_trimap_with_dilate_pixel _ _ _ Ht) as (K & HK & Hpix).
    intros y x. rewrite Hpix, (gen_dilate_pixel _ _ _ _ HK Hd),
      (gen_erosion_pixel _ _ _ _ HK He).
    destruct (pixel alpha y x); simpl; repeat split; intros [? ?]; eauto; discriminate.
  - unfold gen_trimap_with_dilate, gen_dilate, gen_erosion, getStructuringElement_ELLIPSE.
    intros [Hk|Hempty].
    + destruct (Z.leb_spec kernel_size 0); [|lia]. repeat split.
    + destruct (kernel_size <=? 0); [repeat split|]. simpl.
      unfold cv2_dilate, cv2_erode, fg_of, fg_and_unknown_of.
      rewrite !img_empty_img_map, Hempty. repeat split.
Qed.

Lemma generators_domain_and_shape_witness :
  1 <= 3 /\ img_empty alpha_demo = false /\
  exists t d e,
    gen_trimap_with_dilate alpha_demo 3 = Ok t /\
    gen_dilate alpha_demo 3 = Ok d /\
    gen_erosion alpha_demo 3 = Ok e /\
    forall y x,
      (is_Some (pixel t y x) <-> is_Some (pixel alpha_demo y x)) /\
      (is_Some (pixel d y x) <-> is_Some (pixel alpha_demo y x)) /\
      (is_Some (pixel e y x) <-> is_Some (pixel alpha_demo y x)).
Proof.
  split; [lia|]. split; [reflexivity|].
  apply (proj1 (generators_domain_and_shape alpha_demo 3)); [lia|reflexivity].
Defined.


(** ** [trim_img] *)

Lemma py_index_0_nil {A} : py_index (@nil A) 0 = Raise IndexError.
Proof. reflexivity. Qed.

Lemma mapM_Res_cons {A B} (f : A -> Res B) (x : A) (l : list A) :
  mapM_Res f (x :: l) = (y ← f x; k ← mapM_Res f l; Ok (y :: k)).
Proof. reflexivity. Qed.

Lemma first_channel_row (row : list (list Q)) :
  (Forall (fun p => p <> []) row ->
   exists r, mapM_Res (fun p : list Q => py_index p 0) row = Ok r /\
             Forall2 (fun v p => head p = Some v) r row) /\
  (~ Forall (fun p => p <> []) row ->
   mapM_Res (fun p : list Q => py_index p 0) row = Raise IndexError).
Proof.
  induction row as [|p row [IHok IHbad]].
  - split; [intros _; exists []; split; [reflexivity|constructor]|].
    intros H. destruct H. constructor.
  - split.
    + intros H. apply Forall_cons_1 in H as [Hp Hrow].
      destruct (IHok Hrow) as (r & Hr & Hall).
      destruct p as [|v p]; [congruence|].
      exists (v :: r). rewrite mapM_Res_cons, py_index_0, Hr.
      split; [reflexivity|]. constructor; [reflexivity|exact Hall].
    + intros H. destruct p as [|v p]; [reflexivity|].
      rewrite mapM_Res_cons, py_index_0.
      rewrite IHbad; [reflexivity|].
      intros Hrow. apply H. constructor; [discriminate|exact Hrow].
Qed.

Lemma channel0_cases (a : Img (list Q)) :
  (Forall (Forall (fun p => p <> [])) a ->
   exists m, channel0 a = Ok m /\
             Forall2 (Forall2 (fun v p => head p = Some v)) m a) /\
  (~ Forall (Forall (fun p => p <> [])) a -> channel0 a = Raise IndexError).
Proof.
  unfold channel0. induction a as [|row a [IHok IHbad]].
  - split; [intros _; exists []; split; [reflexivity|constructor]|].
    intros H. destruct H. constructor.
  - destruct (first_channel_row row) as [Hok Hbad]. split.
    + intros H. apply Forall_cons_1 in H as [Hrow Ha].
      destruct (Hok Hrow) as (r & Hr & Hall). destruct (IHok Ha) as (m & Hm & Hall').
      exists (r :: m). simpl. rewrite Hr. simpl. rewrite Hm. simpl.
      split; [reflexivity|]. constructor; assumption.
    + intros H. simpl.
      destruct (mapM_Res (fun p : list Q => py_index p 0) row) as [r|e] eqn:Hr.
      * simpl. rewrite IHbad; [reflexivity|].
        intros Ha. apply H. constructor; [|exact Ha].
        destruct (decide (Forall (fun p : list Q => p <> []) row)) as [Hd|Hd];
          [exact Hd|]. discriminate (Hbad Hd).
      * simpl. destruct (decide (Forall (fun p : list Q => p <> []) row)) as [Hd|Hd].
        -- destruct (Hok Hd) as (r & Hr' & _). discriminate.
        -- specialize (Hbad Hd). congruence.
Qed.

(** X6. On a rank-3 array with at least one pixel [trim_img] returns
    exactly when every pixel has at least one channel: the result then
    has the rows and columns of the input and holds the first channel
    of each pixel; if some pixel has no channel the indexing raises
    IndexError.  A rank-2 array is returned as it is, so trimming
    twice is trimming once. *)
Theorem trim_img_keeps_first_channel (a : Img (list Q)) :
  (img_empty a = false -> Forall (Forall (fun p => p <> [])) a ->
   exists m, trim_img (Multi a) = Ok m /\
             Forall2 (Forall2 (fun v p => head p = Some v)) m a /\
             trim_img (Gray m) = Ok m) /\
  (~ Forall (Forall (fun p => p <> [])) a -> trim_img (Multi a) = Raise IndexError).
Proof.
  destruct (channel0_cases a) as [Hok Hbad]. split.
  - intros _ H. destruct (Hok H) as (m & Hm & Hall). exists m. repeat split; assumption.
  - exact Hbad.
Qed.

Lemma trim_img_keeps_first_channel_witness :
  img_empty [[[1; 2; 3]; [4; 5; 6]]]%Q = false /\
  Forall (Forall (fun p : list Q => p <> [])) [[[1; 2; 3]; [4; 5; 6]]]%Q /\
  exists m, trim_img (Multi [[[1; 2; 3]; [4; 5; 6]]]%Q) = Ok m /\
            Forall2 (Forall2 (fun v p => head p = Some v)) m [[[1; 2; 3]; [4; 5; 6]]]%Q /\
            trim_img (Gray m) = Ok m.
Proof.
  assert (H : Forall (Forall (fun p : list Q => p <> [])) [[[1; 2; 3]; [4; 5; 6]]]%Q)
    by (repeat constructor; discriminate).
  split; [reflexivity|]. split; [exact H|].
  exact (proj1 (trim_img_keeps_first_channel [[[1; 2; 3]; [4; 5; 6]]]%Q) eq_refl H).
Defined.

(** ** [process_fgbg] *)

(** A pixel of any number of channels against a one-channel pixel. *)
Lemma bzip_stretch_r (f : Q -> Q -> Q) (p : list Q) (b : Q) :
  bzip (fun x y => Ok (f x y)) p [b] = Ok ((fun x => f x b) <$> p).
Proof.
  unfold bzip. destruct p as [|x [|y p]]; simpl; try reflexivity.
  rewrite (mapM_Res_pure (fun x => f x b) p). reflexivity.
Qed.

Lemma mapM_Res_zip_r {A B B' C} (h : B' -> B) (f : A -> B -> Res C)
    (g : A -> B' -> C) la lb :
  Forall2 (fun a b => f a (h b) = Ok (g a b)) la lb ->
  mapM_Res (fun ab => f ab.1 ab.2) (zip la (h <$> lb)) = Ok (zip_with g la lb).
Proof.
  induction 1 as [|a b la lb Hab H IH]; [reflexivity|].
  simpl. rewrite Hab. simpl.
  change (list_fmap B' B h lb) with (h <$> lb). rewrite IH. reflexivity.
Qed.

Lemma bzip_Forall2_r {A B B' C} (h : B' -> B) (f : A -> B -> Res C)
    (g : A -> B' -> C) la lb :
  Forall2 (fun a b => f a (h b) = Ok (g a b)) la lb ->
  bzip f la (h <$> lb) = Ok (zip_with g la lb).
Proof.
  intros H. unfold bzip.
  rewrite length_fmap, (Forall2_length _ _ _ H), Nat.eqb_refl.
  now apply mapM_Res_zip_r.
Qed.

(** An [(h, w, c)] array against an [(h, w, 1)] array. *)
Lemma bzip3_mask (f : Q -> Q -> Q) (a : Img (list Q)) (m : Img Q) :
  Forall2 (fun (s : list (list Q)) (r : list Q) => length s = length r) a m ->
  bzip3 f a (img_map (fun v => [v]) m)
  = Ok (zip_with (zip_with (fun (p : list Q) v => (fun x => f x v) <$> p)) a m).
Proof.
  intros H. unfold bzip3, img_map. apply bzip_Forall2_r.
  eapply Forall2_impl; [exact H|]. intros s r Hsr. simpl.
  apply bzip_Forall2_r. apply Forall2_true; [|exact Hsr].
  intros p v. apply bzip_stretch_r.
Qed.

Lemma rect3_scale_r (g : Q -> Q -> Q) m a h w c :
  rect2 m h w -> rect3 a h w c ->
  rect3 (zip_with (zip_with (fun (p : list Q) v => (fun x => g x v) <$> p)) a m) h w c.
Proof.
  intros [Hmh Hmw] [Hah Haw]. split.
  - rewrite length_zip_with. lia.
  - apply Forall_lookup. intros i row Hrow.
    apply lookup_zip_with_Some in Hrow as (s & r & -> & Hs & Hr).
    rewrite Forall_lookup in Hmw. rewrite Forall_lookup in Haw.
    specialize (Hmw i r Hr). destruct (Haw i s Hs) as [Hsw Hsc]. split.
    + rewrite length_zip_with. lia.
    + apply Forall_lookup. intros j p Hp.
      apply lookup_zip_with_Some in Hp as (q & v & -> & Hq & _).
      rewrite Forall_lookup in Hsc. rewrite length_fmap. eapply Hsc, Hq.
Qed.

Lemma mask_3_of_singleton (mask : Img Q) :
  mask_3_of mask = Multi (img_map (fun v => [v]) (img_map (fun m => m / 255)%Q mask)).
Proof.
  unfold mask_3_of, img_map. f_equal. rewrite <- list_fmap_compose.
  apply list_fmap_ext. intros _ r _. simpl. rewrite <- list_fmap_compose. reflexivity.
Qed.

Lemma rect2_rect3_rows_r m a h w c :
  rect2 m h w -> rect3 a h w c ->
  Forall2 (fun (s : list (list Q)) (r : list Q) => length s = length r) a m.
Proof.
  intros Hm Ha. apply Forall2_flip. eapply Forall2_impl;
    [exact (rect2_rect3_rows m a h w c Hm Ha)|]. intros r s Hrs. simpl. now symmetry.
Qed.

(** Without a path, the two layers written out. *)
Lemma process_fgbg_run (O : Img (list Q)) (mask : Img Q) h w c (is_fg : bool) wd :
  rect3 O h w c -> rect2 mask h w ->
  process_fgbg (Multi O) mask is_fg None wd
  = (Ok (Multi (zip_with (zip_with (fun (p : list Q) v => (fun x => x * v)%Q <$> p)) O
                  (img_map (fun m => if is_fg then m / 255 else 1 - m / 255)%Q mask))), wd).
Proof.
  intros HO Hm. unfold process_fgbg. rewrite liftR_run, mask_3_of_singleton.
  assert (Hm1 : rect2 (img_map (fun m => m / 255)%Q mask) h w) by now apply rect2_img_map.
  destruct is_fg.
  - unfold np_binop, promote3.
    rewrite (bzip3_mask Qmult O) by (eapply rect2_rect3_rows_r; eauto). reflexivity.
  - unfold np_binop, np_map, promote3. rewrite img_map_singleton.
    assert (Hm2 : rect2 (img_map (fun a => 1 - a)%Q (img_map (fun m => m / 255)%Q mask)) h w)
      by now apply rect2_img_map.
    rewrite (bzip3_mask Qmult O) by (eapply rect2_rect3_rows_r; eauto).
    cbn [fmap Res_fmap]. do 4 f_equal.
    unfold img_map. rewrite <- list_fmap_compose. apply list_fmap_ext.
    intros _ r _. simpl. rewrite <- list_fmap_compose. reflexivity.
Qed.

Lemma scaled_entry (O : Img (list Q)) (m : Img Q) (g : Q -> Q) y x k :
  entry (zip_with (zip_with (fun (p : list Q) v => (fun x => x * v)%Q <$> p)) O
           (img_map g m)) y x k =
  o ← entry O y x k; v ← pixel m y x; Some (o * g v)%Q.
Proof.
  unfold entry. rewrite pixel_zip_with, pixel_img_map.
  destruct (pixel O y x) as [p|]; [|reflexivity]. simpl.
  destruct (pixel m y x) as [v|]; simpl.
  - rewrite list_lookup_fmap. destruct (p !! k); reflexivity.
  - destruct (p !! k); reflexivity.
Qed.

(** X7. Without a stored foreground or background, [process_fgbg]
    splits an [(h, w, c)] image by an [(h, w)] mask into two layers of
    the image's shape: where the mask is 255 the foreground layer is
    the image and the background layer is 0, where the mask is 0 the
    foreground layer is 0 and the background layer is the image.  The
    generators and the files are not touched. *)
Theorem process_fgbg_splits_by_mask (O : Img (list Q)) (mask : Img Q)
    (h w c : nat) (wd : World) :
  rect3 O h w c -> rect2 mask h w ->
  exists F B,
    process_fgbg (Multi O) mask true None wd = (Ok (Multi F), wd) /\
    process_fgbg (Multi O) mask false None wd = (Ok (Multi B), wd) /\
    rect3 F h w c /\ rect3 B h w c /\
    forall y x k o m, entry O y x k = Some o -> pixel mask y x = Some m ->
      exists f b, entry F y x k = Some f /\ entry B y x k = Some b /\
        ((m == 255)%Q -> (f == o)%Q /\ (b == 0)%Q) /\
        ((m == 0)%Q -> (f == 0)%Q /\ (b == o)%Q).
Proof.
  intros HO Hm. do 2 eexists.
  split; [exact (process_fgbg_run O mask h w c true wd HO Hm)|].
  split; [exact (process_fgbg_run O mask h w c false wd HO Hm)|].
  split; [apply rect3_scale_r; [now apply rect2_img_map|exact HO]|].
  split; [apply rect3_scale_r; [now apply rect2_img_map|exact HO]|].
  intros y x k o m Ho Hmk. do 2 eexists.
  rewrite !scaled_entry, Ho, Hmk. simpl.
  split; [reflexivity|]. split; [reflexivity|].
  split; intros ->; split; field.
Qed.

Lemma process_fgbg_splits_by_mask_witness :
  rect3 fg_demo 1 2 3 /\ rect2 mask_demo 1 2 /\
  exists F B,
    process_fgbg (Multi fg_demo) mask_demo true None world_demo = (Ok (Multi F), world_demo) /\
    process_fgbg (Multi fg_demo) mask_demo false None world_demo = (Ok (Multi B), world_demo) /\
    rect3 F 1 2 3 /\ rect3 B 1 2 3 /\
    forall y x k o m, entry fg_demo y x k = Some o -> pixel mask_demo y x = Some m ->
      exists f b, entry F y x k = Some f /\ entry B y x k = Some b /\
        ((m == 255)%Q -> (f == o)%Q /\ (b == 0)%Q) /\
        ((m == 0)%Q -> (f == 0)%Q /\ (b == o)%Q).
Proof.
  assert (H3 : rect3 fg_demo 1 2 3) by (split; [reflexivity|repeat constructor]).
  assert (H2 : rect2 mask_demo 1 2) by (split; [reflexivity|repeat constructor]).
  split; [exact H3|]. split; [exact H2|].
  exact (process_fgbg_splits_by_mask fg_demo mask_demo 1 2 3 world_demo H3 H2).
Defined.


(** ** Shape and range of the composite *)









(** ** Masks that do not fit the foreground *)

Lemma stretch_mismatch {A} (n : nat) (l : list A) :
  length l <> n -> length l <> 1%nat -> stretch n l = Raise ValueError.
Proof.
  intros Hn H1. unfold stretch.
  destruct (Nat.eqb_spec (length l) n); [contradiction|].
  destruct l as [|a [|b l]]; try reflexivity. simpl in H1. contradiction.
Qed.

Lemma stretch_rows {A} (n h : nat) (l : list A) :
  n <> 0%nat -> length l = h -> ~ (h <> n /\ h <> 1%nat) ->
  exists a k, stretch n l = Ok (a :: k) /\ a ∈ l.
Proof.
  intros Hn Hl Hfit. unfold stretch.
  destruct (Nat.eqb_spec (length l) n) as [E|E].
  - destruct l as [|a l]; [simpl in E; congruence|]. exists a, l. split; [reflexivity|].
    apply list_elem_of_here.
  - destruct l as [|a [|b l]]; simpl in *; try (exfalso; apply Hfit; lia).
    destruct n as [|n]; [contradiction|]. exists a, (replicate n a).
    split; [reflexivity|apply list_elem_of_here].
Qed.

Lemma alpha_of_mask_mismatch (mask : Img Q) (h w H W : nat) :
  H <> 0%nat -> rect2 mask h w ->
  (h <> H /\ h <> 1%nat) \/ (w <> W /\ w <> 1%nat) ->
  alpha_of_mask H W mask = Raise ValueError.
Proof.
  intros HH Hm Hbad. apply (rect2_img_map (fun m => m / 255)%Q) in Hm as [Hh Hw].
  unfold alpha_of_mask.
  destruct (decide (h <> H /\ h <> 1%nat)) as [Hfit|Hfit].
  { rewrite stretch_mismatch by (rewrite Hh; tauto). reflexivity. }
  destruct Hbad as [Hbad|[HwW Hw1]]; [tauto|].
  destruct (stretch_rows H h _ HH Hh Hfit) as (a & k & -> & Ha).
  rewrite Forall_forall in Hw. specialize (Hw a Ha).
  cbn [mbind Res_bind]. rewrite mapM_Res_cons.
  rewrite stretch_mismatch by (rewrite Hw; assumption). reflexivity.
Qed.

(** X9. Both composite generators refuse their arguments before any
    random number is drawn: a rank-2 foreground cannot be unpacked
    into [h, w, c], and a mask whose height or width is neither that
    of the (non-empty) foreground nor 1 cannot be written into the
    alpha plane.  Either way ValueError is raised and the generators
    stay where they were. *)
Theorem composites_reject_misfit
    (sk_resize : ndarray -> list nat -> list nat -> Q)
    (blur_value : Z -> Img (list Q) -> nat -> nat -> nat -> Q)
    (bg : ndarray) (mask : Img Q) (fd bd : option ndarray) (wd : World) :
  (forall a : Img Q,
     generate_composite_coco sk_resize (Gray a) bg mask wd = (Raise ValueError, wd) /\
     generate_composite_rssn sk_resize blur_value (Gray a) bg mask fd bd wd
     = (Raise ValueError, wd)) /\
  (forall (F : Img (list Q)) (h w : nat),
     F <> [] -> rect2 mask h w ->
     (h <> length F /\ h <> 1%nat) \/ (w <> cols F /\ w <> 1%nat) ->
     generate_composite_coco sk_resize (Multi F) bg mask wd = (Raise ValueError, wd) /\
     generate_composite_rssn sk_resize blur_value (Multi F) bg mask fd bd wd
     = (Raise ValueError, wd)).
Proof.
  split; [intros a; split; reflexivity|].
  intros F h w HF Hm Hbad.
  assert (Ha : alpha_of_mask (length F) (cols F) mask = Raise ValueError).
  { eapply alpha_of_mask_mismatch; eauto. destruct F; [congruence|discriminate]. }
  unfold generate_composite_coco, generate_composite_rssn, rssn_before_noise.
  rewrite !bind_run, !liftR_run. cbn [shape3].
  rewrite !bind_run, !liftR_run, Ha. split; reflexivity.
Qed.

Lemma composites_reject_misfit_witness :
  fg_demo <> [] /\ rect2 [[255; 0; 0]]%Q 1 3 /\
  generate_composite_coco sk_nearest (Multi fg_demo) bg_demo [[255; 0; 0]]%Q world_demo
  = (Raise ValueError, world_demo) /\
  generate_composite_rssn sk_nearest no_blur (Multi fg_demo) bg_demo [[255; 0; 0]]%Q
    None None world_demo
  = (Raise ValueError, world_demo).
Proof.
  assert (HF : fg_demo <> []) by discriminate.
  assert (Hm : rect2 [[255; 0; 0]]%Q 1 3) by (split; [reflexivity|repeat constructor]).
  split; [exact HF|]. split; [exact Hm|].
  apply (proj2 (composites_reject_misfit sk_nearest no_blur bg_demo [[255; 0; 0]]%Q
                  None None world_demo) fg_demo 1%nat 3%nat HF Hm).
  right. split; discriminate.
Defined.

(** ** The rssn variant with its options off *)

(** X10. Without a denoised foreground, and when neither the blur coin
    nor the noise coin falls below one half, [generate_composite_rssn]
    returns or raises exactly what [generate_composite_coco] does on
    the same layers; when it returns it has drawn two numbers from
    Python's generator and none from NumPy's. *)
Theorem rssn_with_options_off_is_coco
    (sk_resize : ndarray -> list nat -> list nat -> Q)
    (blur_value : Z -> Img (list Q) -> nat -> nat -> nat -> Q)
    (fg bg : ndarray) (mask : Img Q) (bd : option ndarray) (wd : World) :
  (random_lt_half wd).1 = Ok false ->
  (random_lt_half (py_next wd)).1 = Ok false ->
  (generate_composite_rssn sk_resize blur_value fg bg mask None bd wd).1
  = (generate_composite_coco sk_resize fg bg mask wd).1 /\
  forall r, (generate_composite_coco sk_resize fg bg mask wd).1 = Ok r ->
    (generate_composite_rssn sk_resize blur_value fg bg mask None bd wd).2
    = py_next (py_next wd).
Proof.
  intros H1 H2.
  destruct (random_lt_half_run wd) as [b1 Hb1]. rewrite Hb1 in H1.
  simpl in H1. injection H1 as ->.
  destruct (random_lt_half_run (py_next wd)) as [b2 Hb2]. rewrite Hb2 in H2.
  simpl in H2. injection H2 as ->.
  unfold generate_composite_rssn, rssn_before_noise, generate_composite_coco.
  rewrite !bind_run, !liftR_run.
  destruct (shape3 fg) as [[[h w] c]|e]; [|split; [reflexivity|discriminate]].
  rewrite !bind_run, !liftR_run.
  destruct (alpha_of_mask h w mask) as [alpha|e]; [|split; [reflexivity|discriminate]].
  rewrite !bind_run, !liftR_run.
  destruct (resize_img sk_resize fg bg) as [bg'|e]; [|split; [reflexivity|discriminate]].
  rewrite !bind_run. cbn [mret M_ret]. rewrite !bind_run, Hb1. cbv beta iota.
  rewrite !bind_run. cbn [mret M_ret]. rewrite !bind_run, !liftR_run.
  destruct (blend alpha fg bg') as [composite|e]; [|split; [reflexivity|discriminate]].
  cbn [mret M_ret]. cbv beta iota. rewrite !bind_run, Hb2. split; reflexivity.
Qed.

Lemma rssn_with_options_off_is_coco_witness :
  (generate_composite_rssn sk_nearest no_blur (Multi fg_demo) bg_demo mask_demo None None
     world_quiet).1
  = (generate_composite_coco sk_nearest (Multi fg_demo) bg_demo mask_demo world_quiet).1 /\
  forall r,
    (generate_composite_coco sk_nearest (Multi fg_demo) bg_demo mask_demo world_quiet).1
    = Ok r ->
    (generate_composite_rssn sk_nearest no_blur (Multi fg_demo) bg_demo mask_demo None None
       world_quiet).2
    = py_next (py_next world_quiet).
Proof.
  apply (rssn_with_options_off_is_coco sk_nearest no_blur (Multi fg_demo) bg_demo mask_demo
           None world_quiet); vm_compute; reflexivity.
Defined.


(** ** The crop window *)

(** A position found in [a[:ye, :xe]] lies below both bounds. *)
Lemma np_where_window_bounds cond (a : ndarray) ye xe y x :
  0 <= ye -> 0 <= xe ->
  (y, x) ∈ np_where cond (nd_slice2 0 ye 0 xe a) ->
  0 <= y < ye /\ 0 <= x < xe.
Proof.
  intros Hye Hxe Hin.
  apply elem_of_np_where in Hin as (p & _ & Hp & _).
  rewrite as3_nd_slice2 in Hp. apply pixel_Some in Hp as (Hy0 & Hx0 & row & Hrow & Hpx).
  unfold slice2 in Hrow. rewrite list_lookup_fmap in Hrow.
  destruct (py_slice 0 ye (as3 a) !! Z.to_nat y) as [r|] eqn:Hr; [|discriminate].
  injection Hrow as <-.
  apply lookup_lt_Some in Hr. apply lookup_lt_Some in Hpx.
  pose proof (py_slice_length_le (as3 a) ye Hye).
  pose proof (py_slice_length_le r xe Hxe). lia.
Qed.

(** X11. A crop origin that [__call__] selects for a crop size not
    above the height and width leaves room for the whole crop: the
    window [cropy .. cropy + crop_size) x [cropx .. cropx + crop_size)
    lies inside the image, and stops short of its last row and last
    column.  Every buffer of the image's height and width is therefore
    cut to exactly [crop_size] x [crop_size]. *)
Theorem crop_origin_window_fits (hh ww : nat) (crop_size : Z) (trimap : ndarray)
    (wd : World) (cropx cropy : Z) :
  0 <= crop_size -> crop_size <= Z.of_nat hh -> crop_size <= Z.of_nat ww ->
  (crop_origin (Z.of_nat hh) (Z.of_nat ww) crop_size trimap wd).1 = Ok (cropx, cropy) ->
  0 <= cropy /\ cropy + crop_size < Z.of_nat hh /\
  0 <= cropx /\ cropx + crop_size < Z.of_nat ww /\
  forall X : Img (list Q), full hh ww X ->
    full (Z.to_nat crop_size) (Z.to_nat crop_size)
      (slice2 cropy (cropy + crop_size) cropx (cropx + crop_size) X).
Proof.
  intros Hcs Hh Hw Hor.
  destruct (crop_origin_cases (Z.of_nat hh) (Z.of_nat ww) crop_size trimap wd)
    as (_ & Hmem & _).
  destruct (Hmem _ _ Hor) as [Hin _].
  apply np_where_window_bounds in Hin as [Hy Hx]; [|lia|lia].
  repeat (split; [lia|]).
  intros X HX. apply (full_slice2 X hh ww); auto; lia.
Qed.

Lemma crop_origin_window_fits_witness :
  0 <= 2 /\ 2 <= Z.of_nat 5 /\
  (crop_origin (Z.of_nat 5) (Z.of_nat 5) 2 (Gray alpha_demo) world_demo).1 = Ok (0, 0) /\
  0 <= 0 /\ 0 + 2 < Z.of_nat 5 /\ 0 <= 0 /\ 0 + 2 < Z.of_nat 5 /\
  forall X : Img (list Q), full 5 5 X ->
    full (Z.to_nat 2) (Z.to_nat 2) (slice2 0 (0 + 2) 0 (0 + 2) X).
Proof.
  split; [lia|]. split; [lia|]. split; [vm_compute; reflexivity|].
  apply (crop_origin_window_fits 5 5 2 (Gray alpha_demo) world_demo 0 0);
    [lia | lia | lia | vm_compute; reflexivity].
Defined.

(** ** The transformer as a whole *)

Lemma replicate_full (h w : nat) (p : list Q) :
  p <> [] -> full h w (replicate h (replicate w p)).
Proof.
  intros Hp. split; [apply length_replicate|].
  apply Forall_replicate. split; [apply length_replicate|].
  apply Forall_replicate. exact Hp.
Qed.

Lemma flat_argv_full (h w : nat) : Forall (item_full h w) (flat_argv h w).
Proof.
  assert (HM : item_full h w (Multi (replicate h (replicate w [0; 0; 0]%Q))))
    by (apply replicate_full; discriminate).
  assert (HG : item_full h w (Gray (replicate h (replicate w 255%Q)))).
  { unfold item_full, as3, img_map. rewrite fmap_replicate.
    change ((fun v : Q => [v]) <$> replicate w 255%Q) with (fmap (fun v : Q => [v]) (replicate w 255%Q)).
    rewrite fmap_replicate. apply replicate_full. discriminate. }
  unfold flat_argv. repeat (constructor; [assumption|]). constructor.
Qed.

Lemma pixel_replicate {A} (h w : nat) (v u : A) y x :
  pixel (replicate h (replicate w v)) y x = Some u -> u = v.
Proof.
  intros H. apply pixel_Some in H as (_ & _ & row & Hrow & Hu).
  apply lookup_replicate in Hrow as [-> _]. apply lookup_replicate in Hu as [-> _].
  reflexivity.
Qed.

Section Whole.
Variable resize_value : Z -> Img (list Q) -> nat -> nat -> nat -> Q.
Variable CROP_SIZE : list Z.
Variable RESIZE_SIZE : Z.

(** The transformer returns as soon as every crop size it can choose
    is positive and strictly below the smaller side of the buffers. *)
Lemma MattingTransform__call___fits (O : Img (list Q)) (T : Img Q)
    (rest : list ndarray) (hh ww : nat) (wd : World) :
  CROP_SIZE <> [] ->
  Forall (fun c => 0 < c /\ (c < Z.min (Z.of_nat hh) (Z.of_nat ww) \/
                             320 < Z.min (Z.of_nat hh) (Z.of_nat ww))) CROP_SIZE ->
  0 < RESIZE_SIZE ->
  Forall (item_full hh ww) (Multi O :: Gray T :: rest) ->
  (forall y x v, pixel T y x = Some v -> above_m100 v = true) ->
  exists out,
    (MattingTransform__call__ resize_value CROP_SIZE RESIZE_SIZE
       (Multi O :: Gray T :: rest) wd).1 = Ok out /\
    length out = length (Multi O :: Gray T :: rest).
Proof.
  intros Hne Hpos Hrs Hfull Habove.
  pose proof Hfull as Hfull'.
  apply Forall_cons in Hfull' as [HO Hfull']. apply Forall_cons in Hfull' as [HT _].
  assert (HhO : length O = hh) by apply HO.
  destruct (choose_crop_size_cases CROP_SIZE (Z.of_nat hh) (Z.of_nat ww) wd Hne)
    as (chosen & Hin & Hcases).
  assert (Hcs : exists cs, (choose_crop_size CROP_SIZE (Z.of_nat hh) (Z.of_nat ww) wd).1 = Ok cs
                           /\ 0 < cs < Z.min (Z.of_nat hh) (Z.of_nat ww)).
  { rewrite Forall_forall in Hpos. specialize (Hpos chosen Hin).
    destruct Hcases as [[Hlt ->]|[Hge ->]]; eexists; (split; [reflexivity|lia]). }
  destruct Hcs as (cs & Hcs & Hrange).
  assert (Hhpos : (0 < hh)%nat) by lia.
  assert (HwO : cols O = ww).
  { destruct HO as [Hh Hrows]. simpl in *. destruct O as [|r O]; simpl in *; [lia|].
    apply Forall_cons in Hrows as [[Hw _] _]. exact Hw. }
  unfold MattingTransform__call__.
  rewrite bind_run, liftR_run, py_index_0.
  rewrite bind_run, liftR_run. cbn [shape3]. rewrite HhO, HwO.
  rewrite (bind_Ok_run _ _ _ cs) by exact Hcs.
  set (w1 := (choose_crop_size CROP_SIZE (Z.of_nat hh) (Z.of_nat ww) wd).2).
  rewrite bind_run, liftR_run, py_index_1.
  assert (HT0 : exists v, pixel T 0 0 = Some v).
  { destruct HT as [Hh Hrows]. simpl in *. unfold img_map in *. rewrite length_fmap in Hh.
    destruct T as [|r T']; simpl in *; [lia|].
    apply Forall_cons in Hrows as [[Hw _] _]. rewrite length_fmap in Hw.
    destruct r as [|v r]; simpl in *; [lia|]. exists v. reflexivity. }
  destruct HT0 as [v0 Hv0].
  destruct (crop_origin_cases (Z.of_nat hh) (Z.of_nat ww) cs (Gray T) w1)
    as (_ & Hmem & Hret).
  destruct (Hret T v0 eq_refl ltac:(lia) ltac:(lia) Hv0 (Habove _ _ _ Hv0))
    as [[cropx cropy] Hor].
  destruct (Hmem _ _ Hor) as [Hin' _].
  apply np_where_window_bounds in Hin' as [Hy Hx]; [|lia|lia].
  rewrite (bind_Ok_run _ _ _ (cropx, cropy)) by exact Hor.
  cbv beta iota.
  set (w2 := (crop_origin (Z.of_nat hh) (Z.of_nat ww) cs (Gray T) w1).2).
  destruct (random_lt_half_run w2) as [flip_flag Hflip].
  rewrite bind_run, Hflip, liftR_run. cbn [fst].
  apply mapM_Res_total. eapply Forall_impl; [exact Hfull|].
  intros item Hitem. apply (transform_item_total _ _ item hh ww); auto; lia.
Qed.

(** X12. On buffers of one height and width, when every element of
    [CROP_SIZE] is positive and either below the smaller side or the
    smaller side exceeds 320, with a positive [RESIZE_SIZE] and a
    rank-2 second buffer valued above -100 (any 8-bit mask is),
    [MattingTransform.__call__] does not raise: it returns one buffer
    per input, each [RESIZE_SIZE] x [RESIZE_SIZE]. *)
Theorem MattingTransform_call_returns_resized (O : Img (list Q)) (T : Img Q)
    (rest : list ndarray) (hh ww : nat) (wd : World) :
  CROP_SIZE <> [] ->
  Forall (fun c => 0 < c /\ (c < Z.min (Z.of_nat hh) (Z.of_nat ww) \/
                             320 < Z.min (Z.of_nat hh) (Z.of_nat ww))) CROP_SIZE ->
  0 < RESIZE_SIZE ->
  Forall (item_full hh ww) (Multi O :: Gray T :: rest) ->
  (forall y x v, pixel T y x = Some v -> above_m100 v = true) ->
  exists out,
    (MattingTransform__call__ resize_value CROP_SIZE RESIZE_SIZE
       (Multi O :: Gray T :: rest) wd).1 = Ok out /\
    length out = length (Multi O :: Gray T :: rest) /\
    Forall (fun o => spatial_size o RESIZE_SIZE RESIZE_SIZE) out.
Proof.
  intros Hne Hpos Hrs Hfull Habove.
  destruct (MattingTransform__call___fits O T rest hh ww wd Hne Hpos Hrs Hfull Habove)
    as (out & Hout & Hlen).
  exists out. split; [exact Hout|]. split; [exact Hlen|].
  apply transform_items in Hout as (cropy & cropx & cs & flip & Hall).
  apply Forall_forall. intros o Ho. apply list_elem_of_lookup in Ho as [i Hi].
  destruct (Forall2_lookup_r _ _ _ _ _ Hall Hi) as (item & _ & flipped & _ & _ & Hsz).
  exact Hsz.
Qed.

Lemma choose_crop_size_world h w wd cs :
  (choose_crop_size CROP_SIZE h w wd).1 = Ok cs ->
  (choose_crop_size CROP_SIZE h w wd).2 = py_next wd.
Proof.
  unfold choose_crop_size, random_randint.
  destruct (Z.of_nat (length CROP_SIZE) - 1 <? 0); [discriminate|].
  rewrite !bind_run. cbn [py_draw mret M_ret]. rewrite !bind_run, liftR_run.
  destruct (py_index CROP_SIZE _); [reflexivity|discriminate].
Qed.

Lemma crop_origin_world h w cs trimap wd r :
  (crop_origin h w cs trimap wd).1 = Ok r ->
  (crop_origin h w cs trimap wd).2 = np_advance 1 (py_next wd).
Proof.
  unfold crop_origin. destruct (random_lt_half_run wd) as [b Hb].
  rewrite bind_run, Hb. set (target := if (length _ =? 0)%nat then _ else _).
  unfold np_random_randint. destruct (Z.of_nat (length target) <=? 0); [discriminate|].
  rewrite !bind_run. cbn [np_draw mret M_ret]. rewrite !bind_run, liftR_run.
  destruct (py_index target _); [reflexivity|discriminate].
Qed.

(** The world after a call that returns. *)
Lemma MattingTransform__call___world (argv out : list ndarray) (wd : World) :
  (MattingTransform__call__ resize_value CROP_SIZE RESIZE_SIZE argv wd).1 = Ok out ->
  (MattingTransform__call__ resize_value CROP_SIZE RESIZE_SIZE argv wd).2
  = np_advance 1 (py_next (py_next (py_next wd))).
Proof.
  unfold MattingTransform__call__.
  rewrite bind_run, liftR_run. destruct (py_index argv 0) as [ori|]; [|discriminate].
  rewrite bind_run, liftR_run. destruct (shape3 ori) as [[[h w] c]|]; [|discriminate].
  rewrite bind_run.
  destruct (choose_crop_size CROP_SIZE (Z.of_nat h) (Z.of_nat w) wd) as [[cs|] w1] eqn:Hcs;
    [|discriminate].
  assert (Hw1 : w1 = py_next wd).
  { pose proof (choose_crop_size_world (Z.of_nat h) (Z.of_nat w) wd cs) as Hw.
    rewrite Hcs in Hw. apply Hw. reflexivity. }
  subst w1. rewrite bind_run, liftR_run.
  destruct (py_index argv 1) as [trimap|]; [|discriminate].
  rewrite bind_run.
  destruct (crop_origin (Z.of_nat h) (Z.of_nat w) cs trimap (py_next wd))
    as [[[cropx cropy]|] w2] eqn:Hor; [|discriminate].
  assert (Hw2 : w2 = np_advance 1 (py_next (py_next wd))).
  { pose proof (crop_origin_world (Z.of_nat h) (Z.of_nat w) cs trimap (py_next wd)
                  (cropx, cropy)) as Hw.
    rewrite Hor in Hw. apply Hw. reflexivity. }
  subst w2. destruct (random_lt_half_run (np_advance 1 (py_next (py_next wd)))) as [b Hb].
  rewrite bind_run, Hb, liftR_run. intros _. reflexivity.
Qed.

(** X13. A call of the transformer that returns has drawn exactly
    three numbers from Python's generator (crop size, search mode,
    flip) and exactly one from NumPy's (the crop origin), however many
    buffers it was given. *)
Theorem MattingTransform_call_draws (argv out : list ndarray) (wd : World) :
  (MattingTransform__call__ resize_value CROP_SIZE RESIZE_SIZE argv wd).1 = Ok out ->
  (MattingTransform__call__ resize_value CROP_SIZE RESIZE_SIZE argv wd).2
  = np_advance 1 (py_next (py_next (py_next wd))).
Proof. apply MattingTransform__call___world. Qed.

(** X14. What the transformer refuses before it draws anything: no
    buffer at all (IndexError), a first buffer of rank 2, whose shape
    does not unpack into [h, w, c] (ValueError), an empty [CROP_SIZE]
    (ValueError from [random.randint(0, -1)]).  With a single buffer it
    draws the crop size and then fails on [argv[1]] (IndexError). *)
Theorem MattingTransform_call_refuses (wd : World) :
  MattingTransform__call__ resize_value CROP_SIZE RESIZE_SIZE [] wd
  = (Raise IndexError, wd) /\
  (forall a rest,
     MattingTransform__call__ resize_value CROP_SIZE RESIZE_SIZE (Gray a :: rest) wd
     = (Raise ValueError, wd)) /\
  (forall O rest,
     CROP_SIZE = [] ->
     MattingTransform__call__ resize_value CROP_SIZE RESIZE_SIZE (Multi O :: rest) wd
     = (Raise ValueError, wd)) /\
  (forall O,
     CROP_SIZE <> [] ->
     MattingTransform__call__ resize_value CROP_SIZE RESIZE_SIZE [Multi O] wd
     = (Raise IndexError, py_next wd)).
Proof.
  split; [reflexivity|]. split; [|split].
  - intros a rest. unfold MattingTransform__call__.
    rewrite bind_run, liftR_run, py_index_0. reflexivity.
  - intros O rest ->. unfold MattingTransform__call__.
    rewrite bind_run, liftR_run, py_index_0. reflexivity.
  - intros O Hne. unfold MattingTransform__call__.
    rewrite bind_run, liftR_run, py_index_0, bind_run, liftR_run. cbn [shape3].
    destruct (choose_crop_size_cases CROP_SIZE (Z.of_nat (length O)) (Z.of_nat (cols O))
                wd Hne) as (chosen & _ & Hcases).
    assert (Hcs : exists cs, (choose_crop_size CROP_SIZE (Z.of_nat (length O))
                                (Z.of_nat (cols O)) wd).1 = Ok cs)
      by (destruct Hcases as [[_ H]|[_ H]]; eauto).
    destruct Hcs as [cs Hcs]. rewrite (bind_Ok_run _ _ _ cs Hcs).
    rewrite (choose_crop_size_world _ _ _ _ Hcs). reflexivity.
Qed.
End Whole.

Lemma MattingTransform_call_returns_resized_witness :
  exists out,
    (MattingTransform__call__ nearest_value [640; 960; 1280] 320 (flat_argv 321 321)
       world_demo).1 = Ok out /\
    length out = length (flat_argv 321 321) /\
    Forall (fun o => spatial_size o 320 320) out.
Proof.
  apply (MattingTransform_call_returns_resized nearest_value [640; 960; 1280] 320 _ _ _
           321 321 world_demo).
  - discriminate.
  - repeat (constructor; [lia|]). constructor.
  - lia.
  - apply flat_argv_full.
  - intros y x v Hv. apply pixel_replicate in Hv as ->. reflexivity.
Defined.

Lemma MattingTransform_call_draws_witness :
  (MattingTransform__call__ nearest_value [2] 3 (flat_argv 4 4) world_demo).1
  = Ok call_demo_out /\
  (MattingTransform__call__ nearest_value [2] 3 (flat_argv 4 4) world_demo).2
  = np_advance 1 (py_next (py_next (py_next world_demo))).
Proof.
  split; [vm_compute; reflexivity|].
  apply (MattingTransform_call_draws nearest_value [2] 3 (flat_argv 4 4) call_demo_out
           world_demo).
  vm_compute. reflexivity.
Defined.

Lemma MattingTransform_call_refuses_witness :
  [640; 960; 1280] <> [] /\
  MattingTransform__call__ nearest_value [640; 960; 1280] 320 [Multi fg_demo] world_demo
  = (Raise IndexError, py_next world_demo).
Proof.
  split; [discriminate|].
  apply (proj2 (proj2 (proj2 (MattingTransform_call_refuses nearest_value
                                [640; 960; 1280] 320 world_demo)))).
  discriminate.
Defined.


(** ** Element access: the index and the paths *)

Lemma py_index_out_of_range {A} (l : list A) i :
  i < - Z.of_nat (length l) \/ Z.of_nat (length l) <= i ->
  py_index l i = Raise IndexError.
Proof.
  intros Hi. unfold py_index.
  destruct (Z.ltb_spec i 0).
  - destruct (Z.ltb_spec (i + Z.of_nat (length l)) 0); [reflexivity|lia].
  - destruct (Z.ltb_spec i 0); [lia|].
    destruct (Z.leb_spec (Z.of_nat (length l)) i); [reflexivity|lia].
Qed.

Lemma py_index_negative {A} (l : list A) i :
  0 <= i < Z.of_nat (length l) ->
  py_index l (i - Z.of_nat (length l)) = py_index l i.
Proof.
  intros Hi. unfold py_index.
  destruct (Z.ltb_spec (i - Z.of_nat (length l)) 0); [|lia].
  destruct (Z.ltb_spec i 0); [lia|].
  replace (i - Z.of_nat (length l) + Z.of_nat (length l)) with i by lia.
  reflexivity.
Qed.

Lemma py_index_cases {A} (l : list A) i :
  0 <= i ->
  (i < Z.of_nat (length l) /\ exists x, py_index l i = Ok x) \/
  (Z.of_nat (length l) <= i /\ py_index l i = Raise IndexError).
Proof.
  intros Hi. destruct (Z.lt_ge_cases i (Z.of_nat (length l))) as [Hlt|Hge].
  - left. split; [exact Hlt|].
    destruct (py_index_in_range l i) as (x & Hx & _); [lia|eauto].
  - right. split; [exact Hge|]. apply py_index_out_of_range. lia.
Qed.

Lemma self_attr_run {A} (f : Dataset -> A) w : self_attr f w = (Ok (f (self w)), w).
Proof. reflexivity. Qed.

Lemma when_path_run (c : bool) sample i w :
  when_path c sample i w = ((if c then Some <$> py_index sample i else Ok None), w).
Proof.
  destruct c; [|reflexivity]. unfold when_path.
  change ((Some <$> liftR (py_index sample i)) w)
    with (match liftR (py_index sample i) w with
          | (Ok a, w') => (Ok (Some a), w')
          | (Raise e, w') => (Raise e, w')
          end).
  rewrite liftR_run. destruct (py_index sample i); reflexivity.
Qed.

Section Access.
Variable sk_resize : ndarray -> list nat -> list nat -> Q.
Variables blur_value resize_value : Z -> Img (list Q) -> nat -> nat -> nat -> Q.
Variable CROP_SIZE : list Z.
Variable RESIZE_SIZE : Z.

(** X15. [__getitem__] follows Python's list indexing on the sample
    list, whose length is what [__len__] returns: an index below
    [-len] or from [len] on raises IndexError before anything is read
    or drawn, and a negative index [i - len] is the element [i]. *)
Theorem getitem_index_range (index n : Z) (wd : World) :
  (MattingDataset__len__ wd).1 = Ok n ->
  (index < - n \/ n <= index ->
   MattingDataset__getitem__ sk_resize blur_value resize_value CROP_SIZE RESIZE_SIZE
     index wd = (Raise IndexError, wd)) /\
  (0 <= index < n ->
   MattingDataset__getitem__ sk_resize blur_value resize_value CROP_SIZE RESIZE_SIZE
     (index - n) wd
   = MattingDataset__getitem__ sk_resize blur_value resize_value CROP_SIZE RESIZE_SIZE
       index wd).
Proof.
  unfold MattingDataset__len__. rewrite bind_run, self_attr_run. cbn [mret M_ret fst].
  intros [= <-]. split.
  - intros Hi. unfold MattingDataset__getitem__.
    rewrite bind_run, self_attr_run. cbv beta iota.
    rewrite bind_run, liftR_run, py_index_out_of_range by exact Hi. reflexivity.
  - intros Hi. unfold MattingDataset__getitem__.
    rewrite !(bind_run (self_attr samples)), self_attr_run. cbv beta iota.
    rewrite !(bind_run (liftR (py_index _ _))), !liftR_run.
    rewrite py_index_negative by exact Hi. reflexivity.
Qed.

(** X16. An entry of the sample list must hold as many paths as the
    options ask for: two, four when closed-form foregrounds are on or
    the background is not the original one, six for the hd background
    with denoising.  With fewer, [__getitem__] raises IndexError and
    has opened no file and drawn no number. *)
Theorem getitem_needs_paths (index : Z) (wd : World) (sample : list string) :
  py_index (samples (self wd)) index = Ok sample ->
  Z.of_nat (length sample) < paths_needed (self wd) ->
  MattingDataset__getitem__ sk_resize blur_value resize_value CROP_SIZE RESIZE_SIZE
    index wd = (Raise IndexError, wd).
Proof.
  intros Hsample Hshort. unfold MattingDataset__getitem__.
  rewrite bind_run, self_attr_run. cbv beta iota.
  rewrite bind_run, liftR_run, Hsample. cbv beta iota.
  rewrite bind_run, liftR_run.
  destruct (py_index_cases sample 0 ltac:(lia)) as [[H0 [p0 ->]]|[H0 ->]]; [|reflexivity].
  cbv beta iota. rewrite bind_run, liftR_run.
  destruct (py_index_cases sample 1 ltac:(lia)) as [[H1 [p1 ->]]|[H1 ->]]; [|reflexivity].
  cbv beta iota.
  rewrite bind_run, self_attr_run. cbv beta iota.
  rewrite bind_run, self_attr_run. cbv beta iota.
  rewrite bind_run, self_attr_run. cbv beta iota.
  unfold paths_needed in Hshort.
  destruct (py_index_cases sample 2 ltac:(lia)) as [[H2 [p2 E2]]|[H2 E2]];
  destruct (py_index_cases sample 3 ltac:(lia)) as [[H3 [p3 E3]]|[H3 E3]];
  destruct (py_index_cases sample 4 ltac:(lia)) as [[H4 [p4 E4]]|[H4 E4]];
  destruct (py_index_cases sample 5 ltac:(lia)) as [[H5 [p5 E5]]|[H5 E5]];
  try lia;
  destruct (FG_CF (self wd)), (String.eqb (BG_CHOICE (self wd)) "hd"),
    (String.eqb (BG_CHOICE (self wd)) "original"), (RSSN_DENOISE (self wd));
  simpl in Hshort; try lia;
  repeat (rewrite bind_run, when_path_run; cbn [negb orb andb];
          rewrite ?E2, ?E3, ?E4, ?E5; cbn [fmap Res_fmap]; cbv beta iota);
  reflexivity.
Qed.
End Access.

Lemma getitem_index_range_witness :
  (MattingDataset__len__ world_demo).1 = Ok 1 /\
  MattingDataset__getitem__ sk_nearest no_blur nearest_value [2] 3 1 world_demo
  = (Raise IndexError, world_demo) /\
  MattingDataset__getitem__ sk_nearest no_blur nearest_value [2] 3 (0 - 1) world_demo
  = MattingDataset__getitem__ sk_nearest no_blur nearest_value [2] 3 0 world_demo.
Proof.
  split; [reflexivity|].
  pose proof (getitem_index_range sk_nearest no_blur nearest_value [2] 3) as H.
  split.
  - apply (proj1 (H 1 1 world_demo eq_refl)). lia.
  - apply (proj2 (H 0 1 world_demo eq_refl)). lia.
Defined.

Lemma getitem_needs_paths_witness :
  py_index (samples (self world_cf)) 0 = Ok ["ori.png"; "mask.png"]%string /\
  paths_needed (self world_cf) = 4 /\
  MattingDataset__getitem__ sk_nearest no_blur nearest_value [2] 3 0 world_cf
  = (Raise IndexError, world_cf).
Proof.
  split; [reflexivity|]. split; [reflexivity|].
  apply (getitem_needs_paths sk_nearest no_blur nearest_value [2] 3 0 world_cf
           ["ori.png"; "mask.png"]%string); [reflexivity|vm_compute; reflexivity].
Defined.


(** ** Element access on a well-formed entry *)

Lemma imap_Forall2 {A B} (f : nat -> A -> B) (R : B -> A -> Prop) (l : list A) :
  (forall i a, R (f i a) a) -> Forall2 R (imap f l) l.
Proof.
  revert f. induction l as [|a l IH]; intros f Hf; simpl; constructor; [apply Hf|].
  apply IH. intros i b. apply Hf.
Qed.

(** Arrays of one layout: as many rows, and row by row as many
    columns. *)
Lemma imap2_layout {A B} (f : Z -> Z -> A -> B) (src : Img A) :
  Forall2 (fun (r : list B) (s : list A) => length r = length s) (imap2 f src) src.
Proof.
  unfold imap2. apply imap_Forall2. intros i row. apply length_imap.
Qed.

Lemma img_map_layout {A B} (f : A -> B) (src : Img A) :
  Forall2 (fun (r : list B) (s : list A) => length r = length s) (img_map f src) src.
Proof.
  unfold img_map. apply Forall2_fmap_l, Forall_Forall2_diag, Forall_forall.
  intros row _. apply length_fmap.
Qed.

Lemma layout_trans {A B C} (a : Img A) (b : Img B) (c : Img C) :
  Forall2 (fun (r : list A) (s : list B) => length r = length s) a b ->
  Forall2 (fun (r : list B) (s : list C) => length r = length s) b c ->
  Forall2 (fun (r : list A) (s : list C) => length r = length s) a c.
Proof.
  intros Hab. revert c. induction Hab as [|r s a b Hrs _ IH]; intros c Hbc.
  - inversion Hbc. constructor.
  - inversion Hbc as [|? t ? c' Hst Hbc']; subst. constructor; [congruence|]. now apply IH.
Qed.

Lemma zip_with_layout {A B C D} (f : A -> B -> C) (a : Img A) (b : Img B) (d : Img D) :
  Forall2 (fun (r : list A) (s : list D) => length r = length s) a d ->
  Forall2 (fun (r : list B) (s : list D) => length r = length s) b d ->
  Forall2 (fun (r : list C) (s : list D) => length r = length s)
    (zip_with (zip_with f) a b) d.
Proof.
  intros Ha. revert b. induction Ha as [|r s a d Hrs _ IH]; intros b Hb.
  - inversion Hb. constructor.
  - inversion Hb as [|t ? b' ? Hts Hb']; subst. simpl. constructor; [|now apply IH].
    rewrite length_zip_with. lia.
Qed.

Lemma layout_gray_full (m : Img Q) (alpha : Img Q) (hh ww : nat) :
  Forall2 (fun (r s : list Q) => length r = length s) m alpha ->
  rect2 alpha hh ww -> item_full hh ww (Gray m).
Proof.
  intros Hl [Hh Hw]. unfold item_full, as3, img_map. split.
  - rewrite length_fmap, (Forall2_length _ _ _ Hl). exact Hh.
  - apply Forall_fmap, Forall_forall. intros r Hr. simpl.
    apply list_elem_of_lookup in Hr as [i Hi].
    destruct (Forall2_lookup_l _ _ _ _ _ Hl Hi) as (s & Hs & Hrs).
    rewrite Forall_forall in Hw. split.
    + rewrite length_fmap, Hrs. apply Hw. eapply list_elem_of_lookup_2, Hs.
    + apply Forall_fmap, Forall_forall. intros v _. simpl. discriminate.
Qed.

Lemma of_uint8_full (t : Img Z) (alpha : Img Q) (hh ww : nat) :
  Forall2 (fun (r : list Z) (s : list Q) => length r = length s) t alpha ->
  rect2 alpha hh ww -> item_full hh ww (of_uint8 t).
Proof.
  intros Hl Ha. unfold of_uint8. apply (layout_gray_full _ alpha); [|exact Ha].
  eapply layout_trans; [apply img_map_layout|exact Hl].
Qed.

(** The three generated targets have the layout of the buffer. *)
Lemma generators_layout (alpha : Img Q) (k : Z) (t d e : Img Z) :
  gen_trimap_with_dilate alpha k = Ok t ->
  gen_dilate alpha k = Ok d ->
  gen_erosion alpha k = Ok e ->
  Forall2 (fun (r : list Z) (s : list Q) => length r = length s) t alpha /\
  Forall2 (fun (r : list Z) (s : list Q) => length r = length s) d alpha /\
  Forall2 (fun (r : list Z) (s : list Q) => length r = length s) e alpha.
Proof.
  unfold gen_trimap_with_dilate, gen_dilate, gen_erosion.
  destruct (getStructuringElement_ELLIPSE k) as [K|]; [|discriminate]. simpl.
  unfold cv2_dilate, cv2_erode.
  destruct (img_empty (fg_and_unknown_of alpha)); [discriminate|].
  destruct (img_empty (fg_of alpha)); [discriminate|]. simpl.
  assert (Hfu : forall f, Forall2 (fun (r : list Z) (s : list Q) => length r = length s)
                            (imap2 f (fg_and_unknown_of alpha)) alpha)
    by (intros f; eapply layout_trans; [apply imap2_layout|apply img_map_layout]).
  assert (Hfg : forall f, Forall2 (fun (r : list Z) (s : list Q) => length r = length s)
                            (imap2 f (fg_of alpha)) alpha)
    by (intros f; eapply layout_trans; [apply imap2_layout|apply img_map_layout]).
  intros [= <-] [= <-] [= <-]. unfold astype_uint8. repeat split.
  - eapply layout_trans; [apply img_map_layout|]. apply zip_with_layout; auto.
  - eapply layout_trans; [apply img_map_layout|].
    eapply layout_trans; [apply img_map_layout|]. auto.
  - eapply layout_trans; [apply img_map_layout|].
    eapply layout_trans; [apply img_map_layout|]. auto.
Qed.

Lemma rect3_full (a : Img (list Q)) h w c :
  rect3 a h w c -> (0 < c)%nat -> full h w a.
Proof.
  intros [Hh Hw] Hc. split; [exact Hh|].
  eapply Forall_impl; [exact Hw|]. intros row [Hr Hp]. split; [exact Hr|].
  eapply Forall_impl; [exact Hp|]. intros p Hlen ->. simpl in Hlen. lia.
Qed.

Lemma rect2_not_empty (m : Img Q) h w :
  rect2 m h w -> (0 < h)%nat -> (0 < w)%nat -> img_empty m = false.
Proof.
  intros [Hh Hw] Hhp Hwp. destruct m as [|r m]; simpl in *; [lia|].
  apply Forall_cons in Hw as [Hr _]. destruct r; simpl in *; [lia|reflexivity].
Qed.

Lemma image_open_run p a w : files w p = Some a -> image_open p w = (Ok a, w).
Proof. intros H. unfold image_open. now rewrite H. Qed.

Lemma image_open_missing p w :
  files w p = None -> image_open p w = (Raise FileNotFoundError, w).
Proof. intros H. unfold image_open. now rewrite H. Qed.

Lemma pixel_Forall {A} (P : A -> Prop) (a : Img A) y x v :
  Forall (Forall P) a -> pixel a y x = Some v -> P v.
Proof.
  intros Ha Hv. apply pixel_Some in Hv as (_ & _ & row & Hrow & Hv).
  rewrite Forall_lookup in Ha. specialize (Ha _ _ Hrow).
  rewrite Forall_lookup in Ha. eapply Ha, Hv.
Qed.

Section WellFormed.
Variable sk_resize : ndarray -> list nat -> list nat -> Q.
Variables blur_value resize_value : Z -> Img (list Q) -> nat -> nat -> nat -> Q.
Variable CROP_SIZE : list Z.
Variable RESIZE_SIZE : Z.

(** X17. With the original background and no stored foreground,
    [__getitem__] returns on every well-formed entry: the image is
    [(h, w, c)] with at least one channel, the mask trims to [(h, w)]
    with values above -100, every element of [CROP_SIZE] is positive
    and below the smaller side (or the smaller side exceeds 320) and
    [RESIZE_SIZE] is positive.  The seven tensors are
    [RESIZE_SIZE] x [RESIZE_SIZE], and the access has drawn four
    numbers from Python's generator (kernel size, crop size, search
    mode, flip) and one from NumPy's. *)
Theorem getitem_original_returns (index : Z) (wd : World)
    (ori_path mask_path : string) (rest : list string)
    (O : Img (list Q)) (mask_raw : ndarray) (mask : Img Q) (hh ww c : nat) :
  BG_CHOICE (self wd) = "original"%string -> FG_CF (self wd) = false ->
  py_index (samples (self wd)) index = Ok (ori_path :: mask_path :: rest) ->
  files wd ori_path = Some (Multi O) -> files wd mask_path = Some mask_raw ->
  trim_img mask_raw = Ok mask ->
  rect3 O hh ww c -> (0 < c)%nat -> rect2 mask hh ww ->
  (forall y x v, pixel mask y x = Some v -> above_m100 v = true) ->
  CROP_SIZE <> [] ->
  Forall (fun s => 0 < s /\ (s < Z.min (Z.of_nat hh) (Z.of_nat ww) \/
                             320 < Z.min (Z.of_nat hh) (Z.of_nat ww))) CROP_SIZE ->
  0 < RESIZE_SIZE ->
  exists s,
    MattingDataset__getitem__ sk_resize blur_value resize_value CROP_SIZE RESIZE_SIZE
      index wd
    = (Ok s, np_advance 1 (py_next (py_next (py_next (py_next wd))))) /\
    Forall (fun t => exists ch, tensor_shape t ch RESIZE_SIZE RESIZE_SIZE) (tensors_of s).
Proof.
  intros Hbg Hfg Hsample Hori Hmask Htrim HO Hc Hm Habove Hne Hcrop Hrs.
  assert (Hdims : (0 < hh)%nat /\ (0 < ww)%nat).
  { destruct CROP_SIZE as [|s0 l]; [congruence|].
    apply Forall_cons in Hcrop as [[H0 Hs] _]. lia. }
  destruct Hdims as [Hhh Hww].
  unfold MattingDataset__getitem__.
  rewrite bind_run, self_attr_run. cbv beta iota.
  rewrite bind_run, liftR_run, Hsample. cbv beta iota.
  rewrite bind_run, liftR_run, py_index_0. cbv beta iota.
  rewrite bind_run, liftR_run, py_index_1. cbv beta iota.
  rewrite bind_run, self_attr_run. cbv beta iota.
  rewrite bind_run, self_attr_run. cbv beta iota.
  rewrite bind_run, self_attr_run. cbv beta iota.
  rewrite Hbg, Hfg.
  change (String.eqb "original" "hd") with false.
  change (String.eqb "original" "original") with true.
  change (String.eqb "original" "coco") with false.
  cbn [negb orb andb].
  do 4 (rewrite bind_run, when_path_run; cbv beta iota).
  rewrite bind_run, (image_open_run _ _ _ Hori). cbv beta iota.
  rewrite bind_run, (image_open_run _ _ _ Hmask). cbv beta iota.
  rewrite bind_run, liftR_run, Htrim. cbv beta iota.
  rewrite bind_run, (process_fgbg_run O mask hh ww c true wd HO Hm). cbv beta iota.
  rewrite bind_run, (process_fgbg_run O mask hh ww c false wd HO Hm). cbv beta iota.
  set (F := zip_with _ O (img_map (fun m => m / 255)%Q mask)).
  set (B := zip_with _ O (img_map (fun m => 1 - m / 255)%Q mask)).
  assert (HF : rect3 F hh ww c) by (apply rect3_scale_r; [now apply rect2_img_map|exact HO]).
  assert (HB : rect3 B hh ww c) by (apply rect3_scale_r; [now apply rect2_img_map|exact HO]).
  rewrite bind_run. cbn [mret M_ret]. cbv beta iota.
  rewrite bind_run, random_randint_run by lia. cbv beta iota.
  set (k := 25 + _ mod _).
  assert (Hk : 1 <= k).
  { subst k. pose proof (Z.mod_pos_bound (Z.of_N (py_tape wd (py_pos wd))) (35 - 25 + 1)).
    lia. }
  destruct (generators_return mask k Hk (rect2_not_empty mask hh ww Hm Hhh Hww))
    as (t & d & e & Ht & Hd & He).
  destruct (generators_layout mask k t d e Ht Hd He) as (Lt & Ld & Le).
  rewrite bind_run, liftR_run, Ht. cbv beta iota.
  rewrite bind_run, liftR_run, Hd. cbv beta iota.
  rewrite bind_run, liftR_run, He. cbv beta iota.
  rewrite bind_run, self_attr_run. cbv beta iota.
  destruct (transform (self (py_next wd))). unfold call_transform.
  assert (Hfull : Forall (item_full hh ww)
            [Multi O; Gray mask; Multi F; Multi B; of_uint8 t; of_uint8 d; of_uint8 e]).
  { apply Forall_cons_2; [apply (rect3_full O hh ww c HO Hc)|].
    apply Forall_cons_2.
    { apply (layout_gray_full mask mask); [|exact Hm].
      apply Forall_Forall2_diag, Forall_forall. reflexivity. }
    apply Forall_cons_2; [apply (rect3_full F hh ww c HF Hc)|].
    apply Forall_cons_2; [apply (rect3_full B hh ww c HB Hc)|].
    apply Forall_cons_2; [apply (of_uint8_full t mask); assumption|].
    apply Forall_cons_2; [apply (of_uint8_full d mask); assumption|].
    apply Forall_cons_2; [apply (of_uint8_full e mask); assumption|].
    apply Forall_nil_2. }
  destruct (MattingTransform__call___fits resize_value CROP_SIZE RESIZE_SIZE O mask
              [Multi F; Multi B; of_uint8 t; of_uint8 d; of_uint8 e] hh ww (py_next wd)
              Hne Hcrop Hrs Hfull Habove) as (out & Hout & Hlen).
  pose proof (MattingTransform__call___world resize_value CROP_SIZE RESIZE_SIZE _ _ _ Hout)
    as Hworld.
  pose proof (transform_items resize_value CROP_SIZE RESIZE_SIZE _ _ _ Hout)
    as (cropy & cropx & cs & flip & Hall).
  rewrite bind_run.
  destruct (MattingTransform__call__ resize_value CROP_SIZE RESIZE_SIZE _ (py_next wd))
    as [r w'] eqn:Hcall.
  simpl in Hout, Hworld. subst r w'.
  assert (Hsized : Forall (fun o => spatial_size o RESIZE_SIZE RESIZE_SIZE) out).
  { apply Forall_forall. intros o Ho. apply list_elem_of_lookup in Ho as [i Hi].
    destruct (Forall2_lookup_r _ _ _ _ _ Hall Hi) as (item & _ & flipped & _ & _ & Hsz).
    exact Hsz. }
  destruct out as [|a1 [|a2 [|a3 [|a4 [|a5 [|a6 [|a7 [|a8 ?]]]]]]]]; try discriminate Hlen.
  eexists. split; [reflexivity|].
  unfold tensors_of. cbn [s_ori s_mask s_fg s_bg s_trimap s_dilation s_erosion].
  repeat match goal with
         | Hf : Forall _ (_ :: _) |- _ => apply Forall_cons in Hf as [? Hf]
         end.
  repeat (constructor; [eexists; apply tensor_shape_to_tensor; eassumption|]).
  constructor.
Qed.


(** X18. An entry with enough paths whose image file, or whose mask
    file, cannot be opened makes [__getitem__] raise
    FileNotFoundError; nothing has been drawn by then. *)
Theorem getitem_missing_image (index : Z) (wd : World) (sample : list string)
    (ori_path mask_path : string) :
  py_index (samples (self wd)) index = Ok sample ->
  paths_needed (self wd) <= Z.of_nat (length sample) ->
  py_index sample 0 = Ok ori_path -> py_index sample 1 = Ok mask_path ->
  files wd ori_path = None \/ files wd mask_path = None ->
  MattingDataset__getitem__ sk_resize blur_value resize_value CROP_SIZE RESIZE_SIZE
    index wd = (Raise FileNotFoundError, wd).
Proof.
  intros Hsample Hlong H0 H1 Hfiles. unfold MattingDataset__getitem__.
  rewrite bind_run, self_attr_run. cbv beta iota.
  rewrite bind_run, liftR_run, Hsample. cbv beta iota.
  rewrite bind_run, liftR_run, H0. cbv beta iota.
  rewrite bind_run, liftR_run, H1. cbv beta iota.
  rewrite bind_run, self_attr_run. cbv beta iota.
  rewrite bind_run, self_attr_run. cbv beta iota.
  rewrite bind_run, self_attr_run. cbv beta iota.
  unfold paths_needed in Hlong.
  assert (Hopen : forall (K : ndarray -> ndarray -> M Sample),
            (image_open ori_path ≫= (fun ori =>
               image_open mask_path ≫= (fun mask_raw => K ori mask_raw))) wd
            = (Raise FileNotFoundError, wd)).
  { intros K. rewrite bind_run.
    destruct (files wd ori_path) as [a|] eqn:Ha.
    - rewrite (image_open_run _ _ _ Ha). cbv beta iota.
      destruct Hfiles as [Hf|Hf]; [discriminate|].
      rewrite bind_run, (image_open_missing _ _ Hf). reflexivity.
    - rewrite (image_open_missing _ _ Ha). reflexivity. }
  destruct (py_index_cases sample 2 ltac:(lia)) as [[H2 [p2 E2]]|[H2 E2]];
  destruct (py_index_cases sample 3 ltac:(lia)) as [[H3 [p3 E3]]|[H3 E3]];
  destruct (py_index_cases sample 4 ltac:(lia)) as [[H4 [p4 E4]]|[H4 E4]];
  destruct (py_index_cases sample 5 ltac:(lia)) as [[H5 [p5 E5]]|[H5 E5]];
  try lia;
  destruct (FG_CF (self wd)), (String.eqb (BG_CHOICE (self wd)) "hd"),
    (String.eqb (BG_CHOICE (self wd)) "original"), (RSSN_DENOISE (self wd));
  simpl in Hlong; try lia;
  repeat (rewrite bind_run, when_path_run; cbn [negb orb andb];
          rewrite ?E2, ?E3, ?E4, ?E5; cbn [fmap Res_fmap]; cbv beta iota);
  apply Hopen.
Qed.
End WellFormed.

Lemma getitem_original_returns_witness :
  exists s,
    MattingDataset__getitem__ sk_nearest no_blur nearest_value [2] 3 0 world_demo
    = (Ok s, np_advance 1 (py_next (py_next (py_next (py_next world_demo))))) /\
    Forall (fun t => exists ch, tensor_shape t ch 3 3) (tensors_of s).
Proof.
  apply (getitem_original_returns sk_nearest no_blur nearest_value [2] 3 0 world_demo
           "ori.png" "mask.png" []
           (tabulate3 5 5 3 (fun y x k => inject_Z (Z.of_nat (40 * y + 8 * x + k))))
           (Gray alpha_demo) alpha_demo 5 5 3).
  - reflexivity.
  - reflexivity.
  - reflexivity.
  - reflexivity.
  - reflexivity.
  - reflexivity.
  - apply rect3_tabulate3.
  - lia.
  - split; [reflexivity|]. repeat constructor.
  - intros y x v. apply (pixel_Forall (fun v => above_m100 v = true)).
    repeat constructor.
  - discriminate.
  - repeat (constructor; [lia|]). constructor.
  - lia.
Defined.

Lemma getitem_missing_image_witness :
  py_index (samples (self world_no_files)) 0 = Ok ["ori.png"; "mask.png"]%string /\
  files world_no_files "ori.png"%string = None /\
  MattingDataset__getitem__ sk_nearest no_blur nearest_value [2] 3 0 world_no_files
  = (Raise FileNotFoundError, world_no_files).
Proof.
  split; [reflexivity|]. split; [reflexivity|].
  apply (getitem_missing_image sk_nearest no_blur nearest_value [2] 3 0 world_no_files
           ["ori.png"; "mask.png"]%string "ori.png" "mask.png");
    [reflexivity | vm_compute; discriminate | reflexivity | reflexivity | left; reflexivity].
Defined.


(** ** The rssn composite on well-shaped layers *)





Section Rssn.
Variable sk_resize : ndarray -> list nat -> list nat -> Q.
Variable blur_value : Z -> Img (list Q) -> nat -> nat -> nat -> Q.
Variables (h w c : nat).
Hypothesis Hh : (0 < h)%nat.
Hypothesis Hw : (0 < w)%nat.
Hypothesis Hc : (2 <= c)%nat.






End Rssn.




(** ** Element access with a composite *)

Lemma py_index_2 {A} (a b c : A) (l : list A) : py_index (a :: b :: c :: l) 2 = Ok c.
Proof.
  unfold py_index. change (2 <? 0) with false. cbv iota.
  destruct (Z.ltb_spec 2 0); [lia|].
  destruct (Z.leb_spec (Z.of_nat (length (a :: b :: c :: l))) 2) as [Hlen|_];
    [simpl in Hlen; lia|].
  reflexivity.
Qed.


Section Composite.
Variable sk_resize : ndarray -> list nat -> list nat -> Q.
Variables blur_value resize_value : Z -> Img (list Q) -> nat -> nat -> nat -> Q.
Variable CROP_SIZE : list Z.
Variable RESIZE_SIZE : Z.

End Composite.



(** ** What the generators look at *)

Lemma fmap_Forall2_eq {A B} (f : A -> B) (l l' : list A) :
  Forall2 (fun a b => f a = f b) l l' -> f <$> l = f <$> l'.
Proof.
  induction 1 as [|a b l l' Hab _ IH]; [reflexivity|].
  rewrite !fmap_cons, Hab, IH. reflexivity.
Qed.

Lemma img_map_Forall2_eq {A B} (f : A -> B) (a a' : Img A) :
  Forall2 (Forall2 (fun u v => f u = f v)) a a' -> img_map f a = img_map f a'.
Proof.
  intros H. unfold img_map. apply fmap_Forall2_eq.
  eapply Forall2_impl; [exact H|]. intros r r' Hr. now apply fmap_Forall2_eq.
Qed.

Lemma Qeq_bool_iff_eq (a b c : Q) :
  ((a == c)%Q <-> (b == c)%Q) -> Qeq_bool a c = Qeq_bool b c.
Proof.
  intros H. destruct (Qeq_bool a c) eqn:Ea, (Qeq_bool b c) eqn:Eb; try reflexivity.
  - apply Qeq_bool_iff, H, Qeq_bool_iff in Ea. congruence.
  - apply Qeq_bool_iff, H, Qeq_bool_iff in Eb. congruence.
Qed.

(** X21. The three generators see a buffer only through three
    classes of values: exactly 0, exactly 255, anything else.  Two
    buffers of one layout that agree, pixel by pixel, on which class a
    value is in give the same trimap, the same dilation and the same
    erosion (or the same error). *)
Theorem generators_see_three_classes (alpha alpha' : Img Q) (kernel_size : Z) :
  Forall2 (Forall2 (fun a b : Q =>
             ((a == 0)%Q <-> (b == 0)%Q) /\ ((a == 255)%Q <-> (b == 255)%Q)))
    alpha alpha' ->
  gen_trimap_with_dilate alpha kernel_size = gen_trimap_with_dilate alpha' kernel_size /\
  gen_dilate alpha kernel_size = gen_dilate alpha' kernel_size /\
  gen_erosion alpha kernel_size = gen_erosion alpha' kernel_size.
Proof.
  intros H.
  assert (Hfu : fg_and_unknown_of alpha = fg_and_unknown_of alpha').
  { unfold fg_and_unknown_of. apply img_map_Forall2_eq.
    eapply Forall2_impl; [exact H|]. intros r r' Hr.
    eapply Forall2_impl; [exact Hr|]. intros a b [H0 _]. simpl.
    now rewrite (Qeq_bool_iff_eq a b 0 H0). }
  assert (Hfg : fg_of alpha = fg_of alpha').
  { unfold fg_of. apply img_map_Forall2_eq.
    eapply Forall2_impl; [exact H|]. intros r r' Hr.
    eapply Forall2_impl; [exact Hr|]. intros a b [_ H255]. simpl.
    now rewrite (Qeq_bool_iff_eq a b 255 H255). }
  unfold gen_trimap_with_dilate, gen_dilate, gen_erosion. rewrite Hfu, Hfg. auto.
Qed.

Lemma generators_see_three_classes_witness :
  gen_trimap_with_dilate [[0; 128; 255]]%Q 3 = gen_trimap_with_dilate [[0; 7; 255]]%Q 3 /\
  gen_dilate [[0; 128; 255]]%Q 3 = gen_dilate [[0; 7; 255]]%Q 3 /\
  gen_erosion [[0; 128; 255]]%Q 3 = gen_erosion [[0; 7; 255]]%Q 3.
Proof.
  apply (generators_see_three_classes [[0; 128; 255]]%Q [[0; 7; 255]]%Q 3).
  repeat constructor; intros H; vm_compute in H; try discriminate; reflexivity.
Defined.

(** ** Images too small for the crop *)

Lemma py_slice_empty {A} (l : list A) e :
  e = 0 \/ e + Z.of_nat (length l) <= 0 -> py_slice 0 e l = [].
Proof.
  intros He. unfold py_slice, slice_bound.
  destruct (Z.ltb_spec 0 0); [lia|].
  replace (Z.to_nat (Z.min 0 (Z.of_nat (length l)))) with 0%nat by lia.
  rewrite drop_0. apply length_zero_iff_nil. rewrite length_take.
  destruct (Z.ltb_spec e 0); lia.
Qed.

Lemma mjoin_imap_nil {X Y} (f : nat -> list X -> list Y) (a : list (list X)) :
  (forall y, f y [] = []) -> Forall (fun row => row = []) a -> mjoin (imap f a) = [].
Proof.
  intros Hf H. revert f Hf. induction H as [|row a -> _ IH]; intros f Hf; [reflexivity|].
  simpl. rewrite Hf. apply IH. intros y. apply Hf.
Qed.

Lemma np_where_no_columns cond (a : Img (list Q)) :
  Forall (fun row => row = []) a ->
  mjoin (imap (fun y row =>
    mjoin (imap (fun x (p : list Q) =>
             (fun _ => (Z.of_nat y, Z.of_nat x)) <$> List.filter cond p) row)) a) = [].
Proof. intros H. apply mjoin_imap_nil; [reflexivity|exact H]. Qed.

Lemma window_empty cond (T : Img Q) (hh ww : nat) (cs : Z) :
  rect2 T hh ww ->
  Z.of_nat hh = cs \/ 2 * Z.of_nat hh <= cs \/ Z.of_nat ww = cs \/ 2 * Z.of_nat ww <= cs ->
  np_where cond (nd_slice2 0 (Z.of_nat hh - cs) 0 (Z.of_nat ww - cs) (Gray T)) = [].
Proof.
  intros [Hh Hw] Hsmall. unfold np_where. rewrite as3_nd_slice2.
  apply np_where_no_columns. unfold slice2. apply Forall_fmap.
  destruct (decide (Z.of_nat hh = cs \/ 2 * Z.of_nat hh <= cs)) as [Hrows|Hrows].
  - rewrite py_slice_empty; [constructor|].
    unfold as3, img_map. rewrite length_fmap, Hh. lia.
  - apply py_slice_Forall. unfold as3, img_map. apply Forall_fmap.
    eapply Forall_impl; [exact Hw|]. intros r Hr. simpl.
    apply py_slice_empty. rewrite length_fmap, Hr. lia.
Qed.

Section Small.
Variable resize_value : Z -> Img (list Q) -> nat -> nat -> nat -> Q.
Variable CROP_SIZE : list Z.
Variable RESIZE_SIZE : Z.

(** X22. When no element of [CROP_SIZE] is below the smaller side of
    the image the crop size is 320, and the transformer cannot crop an
    image one of whose sides is exactly 320 or at most 160: the search
    window [trimap[:h-320, :w-320]] is empty, and
    [np.random.randint(0, size=1)] raises ValueError. *)
Theorem MattingTransform_call_small_image (O : Img (list Q)) (T : Img Q)
    (rest : list ndarray) (hh ww c : nat) (wd : World) :
  CROP_SIZE <> [] ->
  Forall (fun s => Z.min (Z.of_nat hh) (Z.of_nat ww) <= s) CROP_SIZE ->
  rect3 O hh ww c -> (0 < hh)%nat -> rect2 T hh ww ->
  Z.of_nat hh = 320 \/ Z.of_nat hh <= 160 \/ Z.of_nat ww = 320 \/ Z.of_nat ww <= 160 ->
  (MattingTransform__call__ resize_value CROP_SIZE RESIZE_SIZE
     (Multi O :: Gray T :: rest) wd).1 = Raise ValueError.
Proof.
  intros Hne Hbig HO Hhh HT Hsmall.
  destruct (rect3_dims O hh ww c HO) as (Hlen & Hcols & _).
  unfold MattingTransform__call__.
  rewrite bind_run, liftR_run, py_index_0.
  rewrite bind_run, liftR_run. cbn [shape3]. rewrite Hlen, Hcols by exact Hhh.
  destruct (choose_crop_size_cases CROP_SIZE (Z.of_nat hh) (Z.of_nat ww) wd Hne)
    as (chosen & Hin & Hcases).
  assert (Hcs : (choose_crop_size CROP_SIZE (Z.of_nat hh) (Z.of_nat ww) wd).1 = Ok 320).
  { rewrite Forall_forall in Hbig. specialize (Hbig chosen Hin).
    destruct Hcases as [[Hlt _]|[_ H320]]; [lia|exact H320]. }
  rewrite (bind_Ok_run _ _ _ 320 Hcs).
  rewrite bind_run, liftR_run, py_index_1.
  set (w1 := (choose_crop_size CROP_SIZE (Z.of_nat hh) (Z.of_nat ww) wd).2).
  rewrite bind_run. unfold crop_origin.
  assert (Hwin : forall cond,
            np_where cond (nd_slice2 0 (Z.of_nat hh - 320) 0 (Z.of_nat ww - 320) (Gray T))
            = []) by (intros cond; apply (window_empty cond T hh ww 320 HT); lia).
  rewrite !Hwin. destruct (random_lt_half_run w1) as [b Hb].
  rewrite bind_run, Hb. destruct b; reflexivity.
Qed.
End Small.

Lemma MattingTransform_call_small_image_witness :
  (MattingTransform__call__ nearest_value [640; 960; 1280] 320 (flat_argv 100 400)
     world_demo).1 = Raise ValueError.
Proof.
  apply (MattingTransform_call_small_image nearest_value [640; 960; 1280] 320 _ _ _
           100 400 3 world_demo).
  - discriminate.
  - repeat (constructor; [lia|]). constructor.
  - split; [apply length_replicate|]. apply Forall_replicate.
    split; [apply length_replicate|]. apply Forall_replicate. reflexivity.
  - lia.
  - split; [apply length_replicate|]. apply Forall_replicate. apply length_replicate.
  - lia.
Defined.

(** ** Images shorter than the crop *)




